(** * auto_laser: a shallow embedding of the simulation core

    The Python sources under [src/] are embedded module by module
    ([control.py], [sensors.py], [world.py], [cat.py], [laser.py],
    [simulate.py]).  NumPy arrays of shape [(2,)] are pairs of real
    numbers; floating point arithmetic is idealised by exact arithmetic
    on [R], and [np.linalg.norm] by the Euclidean norm with the real
    square root.  Python exceptions are values of the type [exn].

    Where a property depends on the rounding of the operations, the code
    is read in binary64 instead: the module [float64] embeds
    [BoundarySegment.ray_intersection] over the primitive floats, with the
    operations of IEEE 754 double precision that NumPy performs. *)

From Stdlib Require Import Reals Lra Lia List String ZArith Bool.
From Stdlib Require Floats.
Import ListNotations.

Open Scope R_scope.

(** ** Python exceptions and fallible results *)

Inductive exn : Set :=
| AttributeError
| IndexError
| NotImplementedError
| TypeError
| ValueError.

Inductive result (A : Type) : Type :=
| Ok (a : A)
| Raise (e : exn).

Arguments Ok {A} a.
Arguments Raise {A} e.

Definition bind {A B : Type} (m : result A) (k : A -> result B) : result B :=
  match m with
  | Ok a => k a
  | Raise e => Raise e
  end.

Notation "x <- m ;; k" := (bind m (fun x => k))
  (at level 61, m at next level, right associativity).

(** ** Vectors: NumPy arrays of shape (2,) *)

Module vector.

Definition vec : Type := R * R.

Definition zeros : vec := (0, 0).

Definition add (a b : vec) : vec := (fst a + fst b, snd a + snd b).
Definition sub (a b : vec) : vec := (fst a - fst b, snd a - snd b).
Definition neg (a : vec) : vec := (- fst a, - snd a).
(** [a * k] and [k * a] for a scalar [k]. *)
Definition scale (k : R) (a : vec) : vec := (k * fst a, k * snd a).

(** [np.dot] and [np.cross] on two vectors of the plane. *)
Definition dot (a b : vec) : R := fst a * fst b + snd a * snd b.
Definition cross (a b : vec) : R := fst a * snd b - snd a * fst b.

(** [np.linalg.norm]. *)
Definition norm (a : vec) : R := sqrt (fst a * fst a + snd a * snd a).

(** The comparisons of Python floats, as booleans. *)
Definition Rltb (a b : R) : bool := if Rlt_dec a b then true else false.
Definition Rleb (a b : R) : bool := if Rle_dec a b then true else false.
Definition Rgtb (a b : R) : bool := Rltb b a.
Definition Rgeb (a b : R) : bool := Rleb b a.
Definition Rneqb (a b : R) : bool := if Req_dec_T a b then false else true.

End vector.
Import vector.

(** ** Python lists *)

(** [list.pop()]: removes the element of largest index; [IndexError] on the
    empty list.  The popped element is never used by the callers, only the
    remaining list is returned. *)
Definition pop {A : Type} (l : list A) : result (list A) :=
  match l with
  | [] => Raise IndexError
  | _ :: _ => Ok (removelast l)
  end.

(** [list.append(x)]. *)
Definition append {A : Type} (l : list A) (x : A) : list A := l ++ [x].

(** ** mobile.py *)

Module mobile.

(** The identity of an [ndarray] object. *)
Definition addr : Type := nat.

(** A reference to a [MobileObject]: the agents live in the two
    collections of the simulator and are designated by their index. *)
Inductive MobileObject : Type :=
| CatRef (i : nat)
| LaserRef (j : nat).

End mobile.

(** ** sensors.py *)

Module sensors.

Import mobile.

Definition dict : Type := list (string * string).

Record SensorState : Type := mkSensorState {
  payload : vec;
  metadata : option dict
}.

(** The only oracles an agent holds are built as [RangingOracle(self)]:
    the subject is the agent that owns the oracle and is not stored. *)
Record RangingOracle : Type := mkRangingOracle {
  target : option MobileObject
}.

Definition RangingOracle_init : RangingOracle := mkRangingOracle None.

Definition RangingOracle_name : string := "RangingOracle".

(** [read]: [position] resolves the [position] property of an agent;
    a target that is [None] has no such attribute. *)
Definition RangingOracle_read (self : RangingOracle)
  (position : MobileObject -> result vec) (subject : MobileObject)
  : result SensorState :=
  match target self with
  | None => Raise AttributeError
  | Some t =>
      target_position <- position t ;;
      subject_position <- position subject ;;
      Ok (mkSensorState (sub target_position subject_position)
                        (Some [("name", RangingOracle_name)%string]))
  end.

End sensors.

(** ** control.py *)

Module control.

Import sensors.

Record ControlSignal : Type := mkControlSignal {
  payload : vec;
  metadata : option dict
}.

(** The argument of [__call__]: the simulator passes one [SensorState],
    which is not a [Collection]; the method then wraps it in a list. *)
Inductive observations : Type :=
| Single (o : SensorState)
| Collection (l : list SensorState).

Definition as_collection (state : observations) : list SensorState :=
  match state with
  | Single o => [o]
  | Collection l => l
  end.

(** The closing lines shared by both bounded controllers:
<<
      if len(self._history) >= self._buffer_size:
          self._history.pop()
      self._history.append(x)
>>
*)
Definition record {A : Type} (buffer_size : Z) (history : list A) (x : A)
  : result (list A) :=
  if (buffer_size <=? Z.of_nat (List.length history))%Z
  then h <- pop history ;; Ok (append h x)
  else Ok (append history x).

(** *** ConstantController *)

Record ConstantController : Type := mkConstantController {
  constant : vec;
  constant_history : list ControlSignal
}.

Definition ConstantController_init (constant : vec) : ConstantController :=
  mkConstantController constant [mkControlSignal constant None].

Definition ConstantController_call (c : ConstantController) (state : observations)
  : result (ControlSignal * ConstantController) :=
  Ok (mkControlSignal (constant c) (Some [("name", "ContantController")%string]), c).

(** *** RandomController *)

Record RandomController : Type := mkRandomController {
  gain : R;
  random_buffer_size : Z;
  random_history : list ControlSignal
}.

Definition RandomController_init (gain : R) (buffer_size : Z) : RandomController :=
  mkRandomController gain buffer_size [].

(** [sample] is the draw of [npr.uniform(-1.0, 1.0, size=2)]. *)
Definition RandomController_call (c : RandomController) (sample : vec)
  (state : observations) : result (ControlSignal * RandomController) :=
  let control :=
    mkControlSignal (scale (gain c) sample)
                    (Some [("name", "RandomController")%string]) in
  h <- record (random_buffer_size c) (random_history c) control ;;
  Ok (control, mkRandomController (gain c) (random_buffer_size c) h).

(** *** RangingOracleController *)

Record RangingOracleController : Type := mkRangingOracleController {
  mode : string;
  buffer_size : Z;
  history : list vec
}.

Definition RangingOracleController_init (mode : string) (buffer_size : Z)
  : RangingOracleController :=
  mkRangingOracleController mode buffer_size [].

(** The loop over the observations, [control] being the running value. *)
Fixpoint select (mode : string) (control : vec) (state : list SensorState)
  : result vec :=
  match state with
  | [] => Ok control
  | observation :: rest =>
      if Rgtb (norm (sensors.payload observation)) (norm control) then
        if (mode =? "target")%string then
          select mode (sensors.payload observation) rest
        else if (mode =? "avoid")%string then
          select mode (neg (sensors.payload observation)) rest
        else Raise NotImplementedError
      else select mode control rest
  end.

Definition RangingOracleController_call (c : RangingOracleController)
  (state : observations) : result (ControlSignal * RangingOracleController) :=
  v <- select (mode c) zeros (as_collection state) ;;
  let control :=
    mkControlSignal v (Some [("name", "RangingOracleController");
                             ("mode", mode c)]%string) in
  h <- record (buffer_size c) (history c) (payload control) ;;
  Ok (control, mkRangingOracleController (mode c) (buffer_size c) h).

(** What a controller is after an invocation: a call that raises leaves
    the object as it was (both methods raise before any mutation). *)
Definition after {C I O : Type} (call : C -> I -> result (O * C))
  (c : C) (i : I) : C :=
  match call c i with
  | Ok (_, c') => c'
  | Raise _ => c
  end.

Definition after_all {C I O : Type} (call : C -> I -> result (O * C))
  (c : C) (inputs : list I) : C :=
  fold_left (after call) inputs c.

(** The values the successful invocations returned, oldest first. *)
Fixpoint returned {C I O : Type} (call : C -> I -> result (O * C))
  (c : C) (inputs : list I) : list O :=
  match inputs with
  | [] => []
  | i :: rest =>
      match call c i with
      | Ok (o, c') => o :: returned call c' rest
      | Raise _ => returned call c rest
      end
  end.

Definition random_call (c : RandomController) (i : vec * observations) :=
  RandomController_call c (fst i) (snd i).

End control.

(** ** world.py *)

Module world.

Record BoundarySegment : Type := mkBoundarySegment {
  endpoints : vec * vec;
  inside_normal : vec
}.

(** What [ClosedRoom.distance_to_boundary] returns: the [np.float64] that
    [min] picked among the norms, or the Python list [[np.inf]]. *)
Inductive room_distance : Type :=
| Float64 (d : R)
| InfList.

(** The running minimum of [House.distance_to_boundary]: the Python float
    [np.inf] it starts from, or an [np.float64] taken from a room. *)
Inductive house_distance : Type :=
| PyInf
| NpFloat (d : R).

Record ClosedRoom : Type := mkClosedRoom {
  width : R;
  height : R;
  half_width : R;
  half_height : R;
  bottom_left_corner : vec;
  bottom_right_corner : vec;
  top_right_corner : vec;
  top_left_corner : vec;
  origin : vec;
  walls : list BoundarySegment
}.

Definition BoundarySegment_translate (self : BoundarySegment) (translation : vec)
  : BoundarySegment :=
  mkBoundarySegment
    (add (fst (endpoints self)) translation, add (snd (endpoints self)) translation)
    (inside_normal self).

Definition ClosedRoom_init (width height : R) : ClosedRoom :=
  let half_width := width / 2 in
  let half_height := height / 2 in
  let bottom_left_corner := (- half_width, - half_height) in
  let bottom_right_corner := (half_width, - half_height) in
  let top_right_corner := (half_width, half_height) in
  let top_left_corner := (- half_width, half_height) in
  let up := (0, 1) in
  let down := (0, -1) in
  let right := (1, 0) in
  let left := (-1, 0) in
  mkClosedRoom width height half_width half_height
    bottom_left_corner bottom_right_corner top_right_corner top_left_corner
    zeros
    [ mkBoundarySegment (bottom_left_corner, bottom_right_corner) up;
      mkBoundarySegment (bottom_right_corner, top_right_corner) left;
      mkBoundarySegment (top_right_corner, top_left_corner) down;
      mkBoundarySegment (top_left_corner, bottom_left_corner) right ].

(** [self.origin = translation]: the origin is overwritten, the walls are
    shifted. *)
Definition ClosedRoom_translate (self : ClosedRoom) (translation : vec)
  : ClosedRoom :=
  mkClosedRoom (width self) (height self) (half_width self) (half_height self)
    (bottom_left_corner self) (bottom_right_corner self)
    (top_right_corner self) (top_left_corner self)
    translation
    (map (fun wall => BoundarySegment_translate wall translation) (walls self)).

Definition ClosedRoom_inside (self : ClosedRoom) (point : vec) : bool :=
  let within_width :=
    Rltb (fst point - fst (origin self)) (half_width self)
    && Rgtb (fst point - fst (origin self)) (- half_width self) in
  let within_height :=
    Rltb (snd point - snd (origin self)) (half_height self)
    && Rgtb (snd point - snd (origin self)) (- half_height self) in
  within_width && within_height.

(** Python's [min] on a non-empty list: the first smallest item. *)
Definition min_of (first : R) (rest : list R) : R :=
  fold_left (fun m x => if Rltb x m then x else m) rest first.

(** [House.__init__]: one room that is not a [Collection] is wrapped. *)
Inductive rooms_arg : Type :=
| OneRoom (room : ClosedRoom)
| Rooms (rooms : list ClosedRoom).

Record House : Type := mkHouse { rooms : list ClosedRoom }.

Definition House_init (arg : rooms_arg) : House :=
  match arg with
  | OneRoom room => mkHouse [room]
  | Rooms l => mkHouse l
  end.

Definition House_inside (self : House) (point : vec) : bool :=
  fold_left (fun is_inside room =>
               if ClosedRoom_inside room point then true else is_inside)
            (rooms self) false.

(** [intra_room_distance < distance] in [House.distance_to_boundary].
    - an [np.float64] against the float [np.inf] or another [np.float64]
      is the comparison of the numbers (a norm is finite);
    - the list [[np.inf]] against the Python float [np.inf]: neither
      [list.__lt__] nor [float.__gt__] accepts the other operand, and
      Python raises [TypeError];
    - the list [[np.inf]] against an [np.float64] [d]: [list.__lt__]
      declines, the reflected [np.float64.__gt__] broadcasts over the
      list and answers the array [[d > inf]], that is [[False]], which
      the [if] reads as false. *)
Definition intra_lt (intra_room_distance : room_distance)
  (distance : house_distance) : result bool :=
  match intra_room_distance, distance with
  | Float64 _, PyInf => Ok true
  | Float64 x, NpFloat d => Ok (Rltb x d)
  | InfList, PyInf => Raise TypeError
  | InfList, NpFloat _ => Ok false
  end.

Section Rays.

(** [utils.normalize] is imported by [world.py] but is not part of the
    sources at hand: it is a parameter of the ray casting functions. *)
Variable normalize : vec -> vec.

(** [t1] and [t2] are [None] when the source sets both to [-np.inf],
    for which [t1 >= 0.0] is false. *)
Definition ray_intersection (self : BoundarySegment)
  (ray_origin ray_direction : vec) : list vec :=
  let ray_direction := normalize ray_direction in
  let v1 := sub ray_origin (fst (endpoints self)) in
  let v2 := sub (snd (endpoints self)) (fst (endpoints self)) in
  let v3 := (- snd ray_direction, fst ray_direction) in
  let t :=
    if Rneqb (dot v2 v3) 0
    then Some (cross v2 v1 / dot v2 v3, dot v1 v3 / dot v2 v3)
    else None in
  match t with
  | Some (t1, t2) =>
      if Rgeb t1 0 && Rgeb t2 0 && Rleb t2 1
      then [add ray_origin (scale t1 ray_direction)]
      else []
  | None => []
  end.

(** The list [distances] that [ClosedRoom.distance_to_boundary] builds. *)
Fixpoint wall_distances (walls : list BoundarySegment) (point direction : vec)
  : list R :=
  match walls with
  | [] => []
  | wall :: rest =>
      match ray_intersection wall point direction with
      | [] => wall_distances rest point direction
      | intersection :: _ =>
          norm (sub intersection point) :: wall_distances rest point direction
      end
  end.

Definition ClosedRoom_distance_to_boundary (self : ClosedRoom)
  (point direction : vec) : room_distance :=
  match wall_distances (walls self) point direction with
  | d :: rest => Float64 (min_of d rest)
  | [] => InfList
  end.

Fixpoint House_distance_loop (rooms : list ClosedRoom) (point direction : vec)
  (distance : house_distance) : result house_distance :=
  match rooms with
  | [] => Ok distance
  | room :: rest =>
      let intra_room_distance :=
        ClosedRoom_distance_to_boundary room point direction in
      smaller <- intra_lt intra_room_distance distance ;;
      House_distance_loop rest point direction
        (if smaller
         then match intra_room_distance with
              | Float64 d => NpFloat d
              | InfList => distance
              end
         else distance)
  end.

Definition House_distance_to_boundary (self : House) (point direction : vec)
  : result house_distance :=
  House_distance_loop (rooms self) point direction PyInf.

End Rays.

(** Modelled from the spec: [utils.normalize] is missing from the sources;
    the spec says of the ray that only its direction matters, not its
    magnitude.  This is Euclidean normalisation, [x / np.linalg.norm(x)],
    the instance of [normalize] used where a concrete ray is cast. *)
Definition unit_vector (x : vec) : vec := (fst x / norm x, snd x / norm x).

End world.

(** ** world.py in binary64

    [BoundarySegment.ray_intersection] once more, line by line, on
    [np.float64] values: every operation rounds to nearest as NumPy's
    does, [!=], [>=] and [<=] are the IEEE comparisons, and [-np.inf] is
    the value the source assigns. *)

Module float64.

Import Floats.
Local Open Scope float_scope.

Definition vec : Set := float * float.

Definition add (a b : vec) : vec := (fst a + fst b, snd a + snd b).
Definition sub (a b : vec) : vec := (fst a - fst b, snd a - snd b).
(** [k * a] for a scalar [k]. *)
Definition scale (k : float) (a : vec) : vec := (k * fst a, k * snd a).

(** [np.dot] and [np.cross] on two vectors of the plane. *)
Definition dot (a b : vec) : float := fst a * fst b + snd a * snd b.
Definition cross (a b : vec) : float := fst a * snd b - snd a * fst b.

(** [np.linalg.norm]: the square root of [x.dot(x)]. *)
Definition norm (a : vec) : float := sqrt (dot a a).

Record BoundarySegment : Set := mkBoundarySegment {
  endpoints : vec * vec;
  inside_normal : vec
}.

Section Rays.

(** [utils.normalize], missing from the sources at hand. *)
Variable normalize : vec -> vec.

Definition ray_intersection (self : BoundarySegment)
  (ray_origin ray_direction : vec) : list vec :=
  let ray_direction := normalize ray_direction in
  let v1 := sub ray_origin (fst (endpoints self)) in
  let v2 := sub (snd (endpoints self)) (fst (endpoints self)) in
  let v3 := (- snd ray_direction, fst ray_direction) in
  let t :=
    if negb (dot v2 v3 =? 0)
    then (cross v2 v1 / dot v2 v3, dot v1 v3 / dot v2 v3)
    else (neg_infinity, neg_infinity) in
  let t1 := fst t in
  let t2 := snd t in
  if (0 <=? t1) && (0 <=? t2) && (t2 <=? 1)
  then [add ray_origin (scale t1 ray_direction)]
  else [].

End Rays.

(** Modelled from the spec: [utils.normalize] is missing from the sources;
    the spec says of the ray that only its direction matters, not its
    magnitude.  This is Euclidean normalisation, [x / np.linalg.norm(x)],
    with the division and the norm of binary64. *)
Definition unit_vector (x : vec) : vec := (fst x / norm x, snd x / norm x).

(** The vertical segment from [(1, -1)] to [(1, 1)], facing left. *)
Definition east_wall : BoundarySegment :=
  mkBoundarySegment ((1, -1), (1, 1)) (-1, 0).

End float64.

(** ** The controllers an agent can be configured with *)

Inductive Controller : Type :=
| Constant (c : control.ConstantController)
| Random (c : control.RandomController)
| Ranging (c : control.RangingOracleController).

(** ** cat.py

    An attribute that an object may not have yet is an [option]; reading
    it when absent is Python's [AttributeError].  Position arrays are held
    by address, since [step] updates them in place; velocities are only
    ever rebound and are held by value.

    An agent holds the state of its controller in [self_controller].  In
    Python [self.controller] and [self.config.controller] are one object:
    the field [controller] of a configuration is the controller as the
    configuration was handed to the constructor, and is read at
    construction only; what the object became is in [self_controller]. *)

Module cat.

Import mobile sensors.

Record CatConfig : Type := mkCatConfig {
  name : string;
  max_speed : R;
  initial_position : addr;
  initial_velocity : vec;
  controller : Controller;
  sensor : option RangingOracle
}.

Record Cat : Type := mkCat {
  config : CatConfig;
  self_name : string;
  self_max_speed : R;
  self_position : addr;
  self_velocity : vec;
  self_controller : Controller;
  self_sensor : option RangingOracle;
  self_target : option MobileObject
}.

(** [__init__]; [self_controller] starts as the controller of the
    configuration, see above. *)
Definition Cat_init (config : CatConfig) : Cat :=
  mkCat config (name config) (max_speed config)
        (initial_position config) (initial_velocity config)
        (controller config)
        (match sensor config with
         | None => Some RangingOracle_init
         | Some _ => None
         end)
        None.

(** The [target] setter. *)
Definition set_target (self : Cat) (new_target : MobileObject) : result Cat :=
  match self_sensor self with
  | None => Raise AttributeError
  | Some _ =>
      Ok (mkCat (config self) (self_name self) (self_max_speed self)
                (self_position self) (self_velocity self)
                (self_controller self)
                (Some (mkRangingOracle (Some new_target)))
                (Some new_target))
  end.

(** [cat.velocity = ...] together with the controller the call left. *)
Definition set_control (self : Cat) (c : Controller) (new_velocity : vec) : Cat :=
  mkCat (config self) (self_name self) (self_max_speed self)
        (self_position self) new_velocity c
        (self_sensor self) (self_target self).

(** The class defines no method [reset]: looking it up fails. *)
Definition reset (self : Cat) : result Cat := Raise AttributeError.

End cat.

(** ** laser.py *)

Module laser.

Import mobile sensors.

Record LaserConfig : Type := mkLaserConfig {
  name : string;
  max_speed : R;
  initial_position : addr;
  initial_velocity : vec;
  controller : Controller;
  sensor : option RangingOracle
}.

Record Laser : Type := mkLaser {
  config : LaserConfig;
  self_name : string;
  self_max_speed : R;
  self_position : addr;
  self_velocity : vec;
  self_controller : option Controller;
  self_sensor : option RangingOracle;
  self_target : option MobileObject
}.

(** [reset], on the attributes [sensor], [controller] and [_target] the
    object has when the method is entered (all absent when [__init__]
    calls it).  [RangingOracle.reset] and every controller's [reset] do
    nothing.  As for a cat, [controller config] is the controller the
    configuration was built with, read when the attribute is absent. *)
Definition reset_attributes (config : LaserConfig)
  (sensor_attr : option RangingOracle) (controller_attr : option Controller)
  (target_attr : option MobileObject) : result Laser :=
  new_sensor <-
    match sensor config with
    | None => Ok RangingOracle_init
    | Some _ =>
        match sensor_attr with
        | Some s => Ok s
        | None => Raise AttributeError
        end
    end ;;
  let new_controller :=
    match controller_attr with
    | Some c => c
    | None => controller config
    end in
  Ok (mkLaser config (name config) (max_speed config)
              (initial_position config) (initial_velocity config)
              (Some new_controller) (Some new_sensor) target_attr).

Definition reset (self : Laser) : result Laser :=
  reset_attributes (config self) (self_sensor self) (self_controller self)
                   (self_target self).

Definition Laser_init (config : LaserConfig) : result Laser :=
  reset_attributes config None None None.

Definition set_target (self : Laser) (new_target : MobileObject) : result Laser :=
  match self_sensor self with
  | None => Raise AttributeError
  | Some _ =>
      Ok (mkLaser (config self) (self_name self) (self_max_speed self)
                  (self_position self) (self_velocity self)
                  (self_controller self)
                  (Some (mkRangingOracle (Some new_target)))
                  (Some new_target))
  end.

Definition set_control (self : Laser) (c : Controller) (new_velocity : vec)
  : Laser :=
  mkLaser (config self) (self_name self) (self_max_speed self)
          (self_position self) new_velocity (Some c)
          (self_sensor self) (self_target self).

End laser.

(** ** simulate.py *)

Module simulate.

Import mobile sensors control world.

(** The simulator object, together with the memory its methods act on:
    [arrays] gives the contents of the position arrays, [samples] and
    [drawn] are the state of [numpy.random]. *)
Record Simulator : Type := mkSimulator {
  current_step : Z;
  house : House;
  cats : list cat.Cat;
  lasers : list laser.Laser;
  arrays : addr -> vec;
  samples : nat -> vec;
  drawn : nat
}.

(** Computations on the simulator: an exception leaves the mutations
    made before it in place. *)
Definition M (A : Type) : Type := Simulator -> result A * Simulator.

Definition ret {A : Type} (a : A) : M A := fun s => (Ok a, s).
Definition raise {A : Type} (e : exn) : M A := fun s => (Raise e, s).
Definition lift {A : Type} (r : result A) : M A := fun s => (r, s).
Definition gets {A : Type} (f : Simulator -> A) : M A := fun s => (Ok (f s), s).
Definition modify (f : Simulator -> Simulator) : M unit := fun s => (Ok tt, f s).

Definition mbind {A B : Type} (m : M A) (k : A -> M B) : M B :=
  fun s =>
    match m s with
    | (Ok a, s') => k a s'
    | (Raise e, s') => (Raise e, s')
    end.

Notation "x <~ m ;; k" := (mbind m (fun x => k))
  (at level 61, m at next level, right associativity).
Notation "m ;;; k" := (mbind m (fun _ => k))
  (at level 61, right associativity).

Fixpoint for_each {A : Type} (l : list A) (body : A -> M unit) : M unit :=
  match l with
  | [] => ret tt
  | x :: rest => body x ;;; for_each rest body
  end.

Definition set_current_step (n : Z) (s : Simulator) : Simulator :=
  mkSimulator n (house s) (cats s) (lasers s) (arrays s) (samples s) (drawn s).

Definition set_cats (l : list cat.Cat) (s : Simulator) : Simulator :=
  mkSimulator (current_step s) (house s) l (lasers s) (arrays s) (samples s)
              (drawn s).

Definition set_lasers (l : list laser.Laser) (s : Simulator) : Simulator :=
  mkSimulator (current_step s) (house s) (cats s) l (arrays s) (samples s)
              (drawn s).

Definition set_arrays (h : addr -> vec) (s : Simulator) : Simulator :=
  mkSimulator (current_step s) (house s) (cats s) (lasers s) h (samples s)
              (drawn s).

Definition set_drawn (n : nat) (s : Simulator) : Simulator :=
  mkSimulator (current_step s) (house s) (cats s) (lasers s) (arrays s)
              (samples s) n.

(** Writing the element of index [i] of a list. *)
Fixpoint set_nth {A : Type} (i : nat) (x : A) (l : list A) : list A :=
  match l, i with
  | [], _ => []
  | _ :: rest, O => x :: rest
  | y :: rest, S i' => y :: set_nth i' x rest
  end.

Definition get_cat (i : nat) : M cat.Cat :=
  fun s =>
    match nth_error (cats s) i with
    | Some c => (Ok c, s)
    | None => (Raise IndexError, s)
    end.

Definition get_laser (j : nat) : M laser.Laser :=
  fun s =>
    match nth_error (lasers s) j with
    | Some l => (Ok l, s)
    | None => (Raise IndexError, s)
    end.

Definition put_cat (i : nat) (c : cat.Cat) : M unit :=
  modify (fun s => set_cats (set_nth i c (cats s)) s).

Definition put_laser (j : nat) (l : laser.Laser) : M unit :=
  modify (fun s => set_lasers (set_nth j l (lasers s)) s).

(** [a += v], in place. *)
Definition iadd (a : addr) (v : vec) : M unit :=
  modify (fun s =>
            set_arrays (fun b => if Nat.eqb b a then add (arrays s a) v
                                 else arrays s b) s).

(** The [position] property of the agent a reference designates. *)
Definition position (s : Simulator) (r : MobileObject) : result vec :=
  match r with
  | CatRef i =>
      match nth_error (cats s) i with
      | Some c => Ok (arrays s (cat.self_position c))
      | None => Raise IndexError
      end
  | LaserRef j =>
      match nth_error (lasers s) j with
      | Some l => Ok (arrays s (laser.self_position l))
      | None => Raise IndexError
      end
  end.

(** [np.argmin]: the first index of the smallest item; [ValueError] on
    an empty sequence. *)
Fixpoint argmin_from (best : R) (best_index index : nat) (l : list R) : nat :=
  match l with
  | [] => best_index
  | x :: rest =>
      if Rltb x best then argmin_from x index (S index) rest
      else argmin_from best best_index (S index) rest
  end.

Definition argmin (l : list R) : result nat :=
  match l with
  | [] => Raise ValueError
  | x :: rest => Ok (argmin_from x 0%nat 1%nat rest)
  end.

(** The [(cat, laser)] distance matrix, as the list of its rows. *)
Definition distance_matrix (s : Simulator) : list (list R) :=
  map (fun c =>
         map (fun l => norm (sub (arrays s (cat.self_position c))
                                 (arrays s (laser.self_position l))))
             (lasers s))
      (cats s).

Definition row (distances : list (list R)) (i : nat) : list R :=
  nth i distances [].

(** [distances[:, j]]. *)
Definition column (distances : list (list R)) (j : nat) : list R :=
  map (fun r => nth j r 0) distances.

(** The call of a controller; the random one draws from [numpy.random]. *)
Definition call_controller (c : Controller) (state : observations)
  : M (ControlSignal * Controller) :=
  match c with
  | Constant k =>
      r <~ lift (ConstantController_call k state) ;;
      ret (fst r, Constant (snd r))
  | Random k =>
      sample <~ gets (fun s => samples s (drawn s)) ;;
      modify (fun s => set_drawn (S (drawn s)) s) ;;;
      r <~ lift (RandomController_call k sample state) ;;
      ret (fst r, Random (snd r))
  | Ranging k =>
      r <~ lift (RangingOracleController_call k state) ;;
      ret (fst r, Ranging (snd r))
  end.

Section Step.

(** [constants.MILLISECOND]: the module [constants] is not part of the
    sources at hand. *)
Variable MILLISECOND : R.

Definition timestep_duration : R := 10 * MILLISECOND.

Definition move_cat (i : nat) : M unit :=
  c <~ get_cat i ;;
  iadd (cat.self_position c) (scale timestep_duration (cat.self_velocity c)) ;;;
  inside <~ gets (fun s => House_inside (house s) (arrays s (cat.self_position c))) ;;
  if negb inside then raise ValueError else ret tt.

Definition move_laser (j : nat) : M unit :=
  l <~ get_laser j ;;
  iadd (laser.self_position l)
       (scale timestep_duration (laser.self_velocity l)) ;;;
  inside <~ gets (fun s => House_inside (house s)
                                        (arrays s (laser.self_position l))) ;;
  if negb inside then raise ValueError else ret tt.

Definition cat_targets (distances : list (list R)) (i : nat) : M unit :=
  c <~ get_cat i ;;
  nearest <~ lift (argmin (row distances i)) ;;
  get_laser nearest ;;;
  c' <~ lift (cat.set_target c (LaserRef nearest)) ;;
  put_cat i c'.

Definition laser_targets (distances : list (list R)) (j : nat) : M unit :=
  l <~ get_laser j ;;
  nearest <~ lift (argmin (column distances j)) ;;
  get_cat nearest ;;;
  l' <~ lift (laser.set_target l (CatRef nearest)) ;;
  put_laser j l'.

Definition cat_controls (i : nat) : M unit :=
  c <~ get_cat i ;;
  oracle <~ lift (match cat.self_sensor c with
                  | Some o => Ok o
                  | None => Raise AttributeError
                  end) ;;
  observation <~ (fun s => (RangingOracle_read oracle (position s) (CatRef i), s)) ;;
  r <~ call_controller (cat.self_controller c) (Single observation) ;;
  put_cat i (cat.set_control c (snd r) (control.payload (fst r))).

Definition laser_controls (j : nat) : M unit :=
  l <~ get_laser j ;;
  oracle <~ lift (match laser.self_sensor l with
                  | Some o => Ok o
                  | None => Raise AttributeError
                  end) ;;
  observation <~ (fun s => (RangingOracle_read oracle (position s) (LaserRef j), s)) ;;
  k <~ lift (match laser.self_controller l with
             | Some k => Ok k
             | None => Raise AttributeError
             end) ;;
  r <~ call_controller k (Single observation) ;;
  put_laser j (laser.set_control l (snd r) (control.payload (fst r))).

(** [step()], without the optional capture of render artifacts. *)
Definition step : M unit :=
  n_cats <~ gets (fun s => List.length (cats s)) ;;
  n_lasers <~ gets (fun s => List.length (lasers s)) ;;
  for_each (seq 0 n_cats) move_cat ;;;
  for_each (seq 0 n_lasers) move_laser ;;;
  distances <~ gets distance_matrix ;;
  for_each (seq 0 n_cats) (cat_targets distances) ;;;
  for_each (seq 0 n_lasers) (laser_targets distances) ;;;
  for_each (seq 0 n_cats) cat_controls ;;;
  for_each (seq 0 n_lasers) laser_controls ;;;
  modify (fun s => set_current_step (current_step s + 1)%Z s).

(** [simulate(num_steps)]. *)
Fixpoint simulate (num_steps : nat) : M unit :=
  match num_steps with
  | O => ret tt
  | S n => step ;;; simulate n
  end.

End Step.

Definition reset_cat (i : nat) : M unit :=
  c <~ get_cat i ;;
  c' <~ lift (cat.reset c) ;;
  put_cat i c'.

Definition reset_laser (j : nat) : M unit :=
  l <~ get_laser j ;;
  l' <~ lift (laser.reset l) ;;
  put_laser j l'.

Definition reset : M unit :=
  modify (set_current_step 0%Z) ;;;
  n_cats <~ gets (fun s => List.length (cats s)) ;;
  n_lasers <~ gets (fun s => List.length (lasers s)) ;;
  for_each (seq 0 n_cats) reset_cat ;;;
  for_each (seq 0 n_lasers) reset_laser.

Definition Simulator_init (house : House) (cats : list cat.Cat)
  (lasers : list laser.Laser) (arrays : addr -> vec) (samples : nat -> vec)
  : Simulator :=
  mkSimulator 0%Z house cats lasers arrays samples 0%nat.

End simulate.

(** ** Vocabulary of the statements *)

(** What a history of capacity [n] retains of the items recorded in it,
    oldest first: all of them while they fit, and otherwise the first
    [n - 1] of them followed by the latest one. *)
Definition kept {A : Type} (n : nat) (l : list A) : list A :=
  if (List.length l <=? n)%nat then l
  else firstn (n - 1) l ++ skipn (List.length l - 1) l.

(** [o] is the first observation of [l] whose norm is the largest. *)
Definition first_largest (l : list sensors.SensorState) (i : nat)
  (o : sensors.SensorState) : Prop :=
  nth_error l i = Some o
  /\ (forall x, In x l -> norm (sensors.payload x) <= norm (sensors.payload o))
  /\ (forall j x, (j < i)%nat -> nth_error l j = Some x ->
                  norm (sensors.payload x) < norm (sensors.payload o)).

(** The control a selected payload becomes under a valid mode. *)
Definition adjusted (mode : string) (p : vec) : vec :=
  if (mode =? "target")%string then p else neg p.

(** [RangingOracleController.__call__] on [state] returns a control signal
    of payload [v]: whenever it returns, the payload is [v], and it does
    return when the capacity of the history is at least one. *)
Definition returns_payload (c : control.RangingOracleController)
  (state : control.observations) (v : vec) : Prop :=
  (forall sig c', control.RangingOracleController_call c state = Ok (sig, c') ->
                  control.payload sig = v)
  /\ ((1 <= control.buffer_size c)%Z ->
      exists sig c', control.RangingOracleController_call c state = Ok (sig, c')).

(** One observation of payload [(x, y)], as the simulator passes it. *)
Definition observe (x y : R) : control.observations :=
  control.Single (sensors.mkSensorState (x, y) None).

(** Four observations, in this order: [(3,0)] of norm 3, then [(0,5)],
    [(-5,0)] and [(4,3)], all three of norm 5. *)
Definition tied : list sensors.SensorState :=
  [sensors.mkSensorState (3, 0) None; sensors.mkSensorState (0, 5) None;
   sensors.mkSensorState (-5, 0) None; sensors.mkSensorState (4, 3) None].

(** A ranging-oracle controller of capacity 2, in "target" mode, after it
    was called on [(1,0)] and then on [(2,0)]. *)
Definition two_recorded : control.RangingOracleController :=
  control.after_all control.RangingOracleController_call
    (control.RangingOracleController_init "target" 2)
    [observe 1 0; observe 2 0].

(** The hit distances of all the walls of all the rooms, for one ray. *)
Definition hit_distances (normalize : vec -> vec) (point direction : vec)
  (rooms : list world.ClosedRoom) : list R :=
  flat_map (fun room => world.wall_distances normalize (world.walls room)
                                              point direction) rooms.

(** *** The end-to-end scenario

    A room of 5 x 5; one seeker built from a configuration whose position
    array, at address 0, holds [(2, 2)], with zero initial velocity and a
    ranging-oracle controller in "target" mode; one evader built from a
    configuration whose position array, at address 1, holds the origin,
    with zero initial velocity and a controller in "avoid" mode. *)

Definition seeker_config : cat.CatConfig :=
  cat.mkCatConfig "seeker" 1 0%nat zeros
    (Ranging (control.RangingOracleController_init "target" 1000)) None.

Definition evader_config : laser.LaserConfig :=
  laser.mkLaserConfig "evader" 1 1%nat zeros
    (Ranging (control.RangingOracleController_init "avoid" 1000)) None.

Definition scenario_arrays : mobile.addr -> vec :=
  fun a => if Nat.eqb a 0 then (2, 2) else zeros.

(** The lasers that were successfully constructed. *)
Definition constructed (r : result laser.Laser) : list laser.Laser :=
  match r with
  | Ok l => [l]
  | Raise _ => []
  end.

Definition scenario : simulate.Simulator :=
  simulate.Simulator_init
    (world.House_init (world.OneRoom (world.ClosedRoom_init 5 5)))
    [cat.Cat_init seeker_config]
    (constructed (laser.Laser_init evader_config))
    scenario_arrays
    (fun _ => zeros).

(** ** Further methods of the sources *)

(** The outcome of an [assert] statement: the value computed when the
    assertion holds, or Python's [AssertionError]. *)
Inductive asserted (A : Type) : Type :=
| Holds (a : A)
| AssertionError.

Arguments Holds {A} a.
Arguments AssertionError {A}.

(** The [mode] setter of [RangingOracleController]:
    [assert new_mode in ["target", "avoid"]], then [self._mode = new_mode]. *)
Definition set_mode (self : control.RangingOracleController) (new_mode : string)
  : asserted control.RangingOracleController :=
  if existsb (String.eqb new_mode) ["target"; "avoid"]%string
  then Holds (control.mkRangingOracleController new_mode
                (control.buffer_size self) (control.history self))
  else AssertionError.

(** The [current_time] property of [Simulator]. *)
Definition current_time (MILLISECOND : R) (self : simulate.Simulator) : R :=
  simulate.timestep_duration MILLISECOND * IZR (simulate.current_step self).

(** What identifies a cat and a laser throughout a simulation: the name,
    the maximal speed and the position array (the object, not its
    contents) of the agent, and the name, the maximal speed, the initial
    position array and the initial velocity of its configuration.  The
    controller of the configuration is left out: it is the object the
    agent calls, and its history grows with every call. *)
Definition cat_frame (c : cat.Cat)
  : string * R * mobile.addr * (string * R * mobile.addr * vec) :=
  (cat.self_name c, cat.self_max_speed c, cat.self_position c,
   (cat.name (cat.config c), cat.max_speed (cat.config c),
    cat.initial_position (cat.config c), cat.initial_velocity (cat.config c))).

Definition laser_frame (l : laser.Laser)
  : string * R * mobile.addr * (string * R * mobile.addr * vec) :=
  (laser.self_name l, laser.self_max_speed l, laser.self_position l,
   (laser.name (laser.config l), laser.max_speed (laser.config l),
    laser.initial_position (laser.config l),
    laser.initial_velocity (laser.config l))).

(** The part of a simulator that the stepping never touches. *)
Definition frame (s : simulate.Simulator)
  : world.House * list (string * R * mobile.addr * (string * R * mobile.addr * vec))
    * list (string * R * mobile.addr * (string * R * mobile.addr * vec)) :=
  (simulate.house s, map cat_frame (simulate.cats s),
   map laser_frame (simulate.lasers s)).

(** A computation that leaves the observation [f] of the simulator as it
    was, whether it returns or raises. *)
Definition preserves {X A : Type} (f : simulate.Simulator -> X)
  (m : simulate.M A) : Prop :=
  forall s, f (snd (m s)) = f s.

(** The step counter together with the frame. *)
Definition static (s : simulate.Simulator) :=
  (simulate.current_step s, frame s).

(** The agents of a simulator, as opposed to the memory they point to. *)
Definition agents (s : simulate.Simulator) : list cat.Cat * list laser.Laser :=
  (simulate.cats s, simulate.lasers s).

(** A seeker configured at [(2, 2)] with the initial velocity [(100, 0)],
    and the simulator of the scenario with this seeker in place of the
    still one. *)
Definition runaway_config : cat.CatConfig :=
  cat.mkCatConfig "runaway" 1 0%nat (100, 0)
    (Ranging (control.RangingOracleController_init "target" 1000)) None.

Definition runaway_scenario : simulate.Simulator :=
  simulate.Simulator_init
    (world.House_init (world.OneRoom (world.ClosedRoom_init 5 5)))
    [cat.Cat_init runaway_config]
    (constructed (laser.Laser_init evader_config))
    scenario_arrays
    (fun _ => zeros).

(** A seeker whose configuration brings a sensor of its own, and the
    simulator of the scenario with this seeker. *)
Definition equipped_config : cat.CatConfig :=
  cat.mkCatConfig "equipped" 1 0%nat zeros
    (Ranging (control.RangingOracleController_init "target" 1000))
    (Some sensors.RangingOracle_init).

Definition equipped_scenario : simulate.Simulator :=
  simulate.Simulator_init
    (world.House_init (world.OneRoom (world.ClosedRoom_init 5 5)))
    [cat.Cat_init equipped_config]
    (constructed (laser.Laser_init evader_config))
    scenario_arrays
    (fun _ => zeros).

(** The simulator of the scenario without its seeker. *)
Definition evader_alone : simulate.Simulator :=
  simulate.Simulator_init
    (world.House_init (world.OneRoom (world.ClosedRoom_init 5 5)))
    []
    (constructed (laser.Laser_init evader_config))
    scenario_arrays
    (fun _ => zeros).

(** What [Laser.reset] makes of a laser: the physical state of the
    configuration, the same controller object and the same target. *)
Definition is_reset_of (l l' : laser.Laser) : Prop :=
  laser.config l' = laser.config l
  /\ laser.self_name l' = laser.name (laser.config l)
  /\ laser.self_max_speed l' = laser.max_speed (laser.config l)
  /\ laser.self_position l' = laser.initial_position (laser.config l)
  /\ laser.self_velocity l' = laser.initial_velocity (laser.config l)
  /\ (forall k, laser.self_controller l = Some k -> laser.self_controller l' = Some k)
  /\ laser.self_target l' = laser.self_target l.

(** The evader of the scenario, as its constructor builds it. *)
Definition evader : laser.Laser :=
  laser.mkLaser evader_config "evader" 1 1%nat zeros
    (Some (Ranging (control.RangingOracleController_init "avoid" 1000)))
    (Some sensors.RangingOracle_init) None.

(** * Properties *)

(** ** Comparisons and norms *)

Lemma Rltb_true (a b : R) : a < b -> Rltb a b = true.
Proof. intros H; unfold Rltb; destruct (Rlt_dec a b); [reflexivity | contradiction]. Qed.

Lemma Rltb_false (a b : R) : b <= a -> Rltb a b = false.
Proof. intros H; unfold Rltb; destruct (Rlt_dec a b); [lra | reflexivity]. Qed.

Lemma Rltb_spec (a b : R) : Rltb a b = true <-> a < b.
Proof.
  unfold Rltb; destruct (Rlt_dec a b); split; intros; auto; discriminate.
Qed.

Lemma Rleb_spec (a b : R) : Rleb a b = true <-> a <= b.
Proof.
  unfold Rleb; destruct (Rle_dec a b); split; intros; auto; discriminate.
Qed.

Lemma Rleb_true (a b : R) : a <= b -> Rleb a b = true.
Proof. apply Rleb_spec. Qed.

Lemma Rleb_false (a b : R) : b < a -> Rleb a b = false.
Proof. intros H; unfold Rleb; destruct (Rle_dec a b); [lra | reflexivity]. Qed.

Lemma Rneqb_spec (a b : R) : Rneqb a b = true <-> a <> b.
Proof.
  unfold Rneqb; destruct (Req_dec_T a b); split; intros; auto;
    try discriminate; contradiction.
Qed.

Lemma Rneqb_eq (a b : R) : a = b -> Rneqb a b = false.
Proof. intros H; unfold Rneqb; destruct (Req_dec_T a b); [reflexivity | contradiction]. Qed.

Lemma Rneqb_neq (a b : R) : a <> b -> Rneqb a b = true.
Proof. apply Rneqb_spec. Qed.

Lemma sum_squares_nonneg (x y : R) : 0 <= x * x + y * y.
Proof. nra. Qed.

Lemma norm_nonneg (a : vec) : 0 <= norm a.
Proof. apply sqrt_pos. Qed.

Lemma norm_zeros : norm zeros = 0.
Proof.
  unfold norm, zeros; simpl.
  replace (0 * 0 + 0 * 0) with 0 by ring. apply sqrt_0.
Qed.

Lemma norm_neg (a : vec) : norm (neg a) = norm a.
Proof. unfold norm, neg; simpl. f_equal; ring. Qed.

Lemma norm_zero_inv (a : vec) : norm a <= 0 -> a = zeros.
Proof.
  intros H. destruct a as [x y]. unfold norm in H; simpl in H.
  assert (Hs : sqrt (x * x + y * y) = 0) by (pose proof (sqrt_pos (x * x + y * y)); lra).
  apply sqrt_eq_0 in Hs; [| apply sum_squares_nonneg].
  assert (x = 0) by nra. assert (y = 0) by nra. subst. reflexivity.
Qed.

(** Norms compare as the sums of squares do. *)
Lemma norm_lt_iff (a b : vec) :
  norm a < norm b <->
  fst a * fst a + snd a * snd a < fst b * fst b + snd b * snd b.
Proof.
  unfold norm; split; intros H.
  - apply sqrt_lt_0_alt in H. exact H.
  - apply sqrt_lt_1_alt. split; [apply sum_squares_nonneg | exact H].
Qed.

(** ** Lists *)

Lemma removelast_snoc {A : Type} (l : list A) (x : A) : removelast (l ++ [x]) = l.
Proof. apply removelast_last. Qed.

Lemma pop_snoc {A : Type} (l : list A) (x : A) : pop (l ++ [x]) = Ok l.
Proof.
  unfold pop. destruct (l ++ [x]) eqn:E.
  - destruct l; discriminate.
  - rewrite <- E, removelast_snoc. reflexivity.
Qed.

(** ** The bounded history *)

Section Record.

Context {A : Type}.
Import control.

Lemma record_room (n : Z) (h : list A) (x : A) :
  (Z.of_nat (List.length h) < n)%Z -> record n h x = Ok (h ++ [x]).
Proof.
  intros H. unfold record.
  destruct (Z.leb_spec n (Z.of_nat (List.length h))); [lia | reflexivity].
Qed.

Lemma record_full (n : Z) (h : list A) (newest x : A) :
  (n <= Z.of_nat (List.length (h ++ [newest])))%Z ->
  record n (h ++ [newest]) x = Ok (h ++ [x]).
Proof.
  intros H. unfold record.
  destruct (Z.leb_spec n (Z.of_nat (List.length (h ++ [newest])))); [| lia].
  rewrite pop_snoc. reflexivity.
Qed.

Lemma record_empty_full (n : Z) (x : A) :
  (n <= 0)%Z -> record n [] x = Raise IndexError.
Proof.
  intros H. unfold record. simpl.
  destruct (Z.leb_spec n 0); [reflexivity | lia].
Qed.

(** With a capacity of at least one the recording never fails and keeps
    the length within the capacity. *)
Lemma record_bounded (n : Z) (h : list A) (x : A) :
  (1 <= n)%Z -> (Z.of_nat (List.length h) <= n)%Z ->
  exists h', record n h x = Ok h' /\ (Z.of_nat (List.length h') <= n)%Z.
Proof.
  intros Hn Hh.
  destruct (Z.ltb_spec (Z.of_nat (List.length h)) n) as [Hlt | Hge].
  - exists (h ++ [x]). split; [apply record_room; exact Hlt |].
    rewrite length_app; simpl. lia.
  - destruct (@exists_last _ h) as [h0 [newest E]].
    { intros ->. simpl in Hge. lia. }
    subst h. exists (h0 ++ [x]). split; [apply record_full; lia |].
    rewrite length_app in *; simpl in *. lia.
Qed.

Lemma record_cases (n : Z) (h : list A) (x : A) :
  (exists h', record n h x = Ok h') \/ record n h x = Raise IndexError.
Proof.
  unfold record.
  destruct (n <=? Z.of_nat (List.length h))%Z; [| left; eauto].
  destruct h; simpl; [right; reflexivity | left; eauto].
Qed.

End Record.

(** ** What the history retains *)

Section Kept.

Context {A : Type}.
Import control.

Lemma skipn_last_one (l : list A) (x : A) :
  skipn (List.length (l ++ [x]) - 1) (l ++ [x]) = [x].
Proof.
  rewrite length_app; simpl.
  replace (List.length l + 1 - 1)%nat with (List.length l) by lia.
  rewrite skipn_app, skipn_all, Nat.sub_diag. reflexivity.
Qed.

Lemma length_kept (n : nat) (l : list A) :
  (1 <= n)%nat -> List.length (kept n l) = Nat.min n (List.length l).
Proof.
  intros Hn. unfold kept.
  destruct (Nat.leb_spec (List.length l) n) as [H | H]; [lia |].
  rewrite length_app, length_firstn, length_skipn. lia.
Qed.

(** One more recorded item: the retained list evolves as the source's
    [pop]-then-[append] does. *)
Lemma kept_snoc (n : nat) (l : list A) (x : A) :
  (1 <= n)%nat ->
  kept n (l ++ [x]) =
  if (n <=? List.length (kept n l))%nat
  then removelast (kept n l) ++ [x]
  else kept n l ++ [x].
Proof.
  intros Hn. rewrite length_kept by exact Hn.
  unfold kept at 1. rewrite skipn_last_one.
  rewrite length_app; simpl.
  destruct (Nat.leb_spec (List.length l + 1) n) as [H1 | H1].
  - destruct (Nat.leb_spec n (Nat.min n (List.length l))) as [H2 | H2]; [lia |].
    unfold kept. destruct (Nat.leb_spec (List.length l) n); [reflexivity | lia].
  - destruct (Nat.leb_spec n (Nat.min n (List.length l))) as [H2 | H2]; [| lia].
    rewrite firstn_app.
    replace (n - 1 - List.length l)%nat with 0%nat by lia.
    rewrite firstn_O, app_nil_r. f_equal.
    unfold kept. destruct (Nat.leb_spec (List.length l) n) as [H3 | H3].
    + assert (E : List.length l = n) by lia.
      rewrite removelast_firstn_len. f_equal. lia.
    + destruct (@exists_last _ l) as [l0 [y E]].
      { intros ->. simpl in H3. lia. }
      subst l. rewrite skipn_last_one, removelast_snoc. reflexivity.
Qed.

Lemma record_step (n : nat) (h : list A) (x : A) :
  (1 <= n)%nat ->
  record (Z.of_nat n) h x =
  Ok (if (n <=? List.length h)%nat then removelast h ++ [x] else h ++ [x]).
Proof.
  intros Hn. destruct (Nat.leb_spec n (List.length h)) as [H | H].
  - destruct (@exists_last _ h) as [h0 [y E]].
    { intros ->. simpl in H. lia. }
    subst h. rewrite removelast_snoc. apply record_full. lia.
  - apply record_room. lia.
Qed.

End Kept.

(** ** Controllers that record what they return *)

Section BoundedController.

Import control.

Variables C I O X : Type.
Variable call : C -> I -> result (O * C).
Variable hist : C -> list X.
Variable cap : C -> Z.
Variable item : O -> X.
Variable n : nat.

Hypothesis capacity : (1 <= n)%nat.
Hypothesis call_records :
  forall c i o c', call c i = Ok (o, c') ->
    cap c' = cap c /\ record (cap c) (hist c) (item o) = Ok (hist c').

Lemma history_is_kept (inputs : list I) :
  forall (c : C) (outs : list X),
    cap c = Z.of_nat n -> hist c = kept n outs ->
    hist (after_all call c inputs)
    = kept n (outs ++ map item (returned call c inputs)).
Proof using capacity call_records.
  induction inputs as [| i rest IH]; intros c outs Hcap Hh.
  - simpl. rewrite app_nil_r. exact Hh.
  - unfold after_all; simpl. unfold after at 2.
    destruct (call c i) as [[o c'] | e] eqn:E.
    + destruct (call_records _ _ _ _ E) as [Hc Hr].
      rewrite Hcap, record_step in Hr by exact capacity.
      injection Hr as Hr.
      fold (after_all call c' rest).
      rewrite (IH c' (outs ++ [item o])).
      * simpl. rewrite <- app_assoc. reflexivity.
      * congruence.
      * rewrite kept_snoc by exact capacity. rewrite <- Hh. symmetry. exact Hr.
    + fold (after_all call c rest). apply IH; assumption.
Qed.

Lemma history_is_bounded (inputs : list I) (c : C) :
  cap c = Z.of_nat n -> hist c = [] ->
  (List.length (hist (after_all call c inputs)) <= n)%nat.
Proof using capacity call_records.
  intros Hcap Hh.
  rewrite (history_is_kept inputs c []) by (assumption || (rewrite Hh; reflexivity)).
  rewrite length_kept by exact capacity. lia.
Qed.

End BoundedController.

Lemma random_call_records (c : control.RandomController)
  (i : vec * control.observations) (o : control.ControlSignal)
  (c' : control.RandomController) :
  control.random_call c i = Ok (o, c') ->
  control.random_buffer_size c' = control.random_buffer_size c
  /\ control.record (control.random_buffer_size c) (control.random_history c) o
     = Ok (control.random_history c').
Proof.
  unfold control.random_call, control.RandomController_call. intros H.
  destruct (control.record _ _ _) as [h |] eqn:E; simpl in H; [| discriminate].
  injection H as <- <-. simpl. split; [reflexivity | exact E].
Qed.

Lemma ranging_call_records (c : control.RangingOracleController)
  (i : control.observations) (o : control.ControlSignal)
  (c' : control.RangingOracleController) :
  control.RangingOracleController_call c i = Ok (o, c') ->
  control.buffer_size c' = control.buffer_size c
  /\ control.record (control.buffer_size c) (control.history c) (control.payload o)
     = Ok (control.history c').
Proof.
  unfold control.RangingOracleController_call. intros H.
  destruct (control.select _ _ _) as [v |]; simpl in H; [| discriminate].
  destruct (control.record _ _ _) as [h |] eqn:E; simpl in H; [| discriminate].
  injection H as <- <-. simpl. split; [reflexivity | exact E].
Qed.

(** ** The selection loop of [RangingOracleController] *)

Lemma Rgtb_norm_true (a b : vec) :
  fst b * fst b + snd b * snd b < fst a * fst a + snd a * snd a ->
  Rgtb (norm a) (norm b) = true.
Proof. intros H. apply Rltb_true, norm_lt_iff, H. Qed.

Lemma Rgtb_norm_false (a b : vec) :
  fst a * fst a + snd a * snd a <= fst b * fst b + snd b * snd b ->
  Rgtb (norm a) (norm b) = false.
Proof.
  intros H. apply Rltb_false. unfold norm.
  apply sqrt_le_1_alt, H.
Qed.

Section Select.

Import sensors control.

Lemma norm_adjusted (mode : string) (p : vec) : norm (adjusted mode p) = norm p.
Proof. unfold adjusted. destruct (mode =? "target")%string; [reflexivity | apply norm_neg]. Qed.

Lemma adjusted_zeros (mode : string) : adjusted mode zeros = zeros.
Proof.
  unfold adjusted, neg, zeros. destruct (mode =? "target")%string; [reflexivity |].
  simpl. rewrite Ropp_0. reflexivity.
Qed.

Lemma select_cons_valid (mode : string) (control : vec) (o : SensorState)
  (rest : list SensorState) :
  mode = "target"%string \/ mode = "avoid"%string ->
  select mode control (o :: rest) =
  if Rgtb (norm (sensors.payload o)) (norm control)
  then select mode (adjusted mode (sensors.payload o)) rest
  else select mode control rest.
Proof.
  intros [-> | ->]; reflexivity.
Qed.

(** With a valid mode the loop ends on the running control when nothing
    beats it, and otherwise on the first observation of largest norm. *)
Lemma select_valid (mode : string) :
  mode = "target"%string \/ mode = "avoid"%string ->
  forall (l : list SensorState) (control : vec),
    (select mode control l = Ok control
     /\ forall x, In x l -> norm (sensors.payload x) <= norm control)
    \/ exists l1 o l2,
         l = l1 ++ o :: l2
         /\ norm control < norm (sensors.payload o)
         /\ (forall x, In x l1 -> norm (sensors.payload x) < norm (sensors.payload o))
         /\ (forall x, In x l2 -> norm (sensors.payload x) <= norm (sensors.payload o))
         /\ select mode control l = Ok (adjusted mode (sensors.payload o)).
Proof.
  intros Hmode. induction l as [| o rest IH]; intros control.
  - left. split; [reflexivity | intros x []].
  - rewrite select_cons_valid by exact Hmode. unfold Rgtb.
    destruct (Rlt_dec (norm control) (norm (sensors.payload o))) as [Hgt | Hle].
    + rewrite Rltb_true by exact Hgt.
      destruct (IH (adjusted mode (sensors.payload o))) as [[E Hall] | (l1 & o' & l2 & El & Hlt & H1 & H2 & E)].
      * right. exists [], o, rest. rewrite norm_adjusted in Hall.
        repeat split; auto. intros x [].
      * right. rewrite norm_adjusted in Hlt.
        exists (o :: l1), o', l2. subst rest.
        repeat split; auto; try lra.
        intros x [<- | Hx]; [exact Hlt | apply H1, Hx].
    + rewrite Rltb_false by lra.
      destruct (IH control) as [[E Hall] | (l1 & o' & l2 & El & Hlt & H1 & H2 & E)].
      * left. split; [exact E |]. intros x [<- | Hx]; [lra | apply Hall, Hx].
      * right. exists (o :: l1), o', l2. subst rest.
        repeat split; auto.
        intros x [<- | Hx]; [lra | apply H1, Hx].
Qed.

(** With another mode the loop raises on the first observation that
    beats the zero control, which nothing replaces before. *)
Lemma select_invalid (mode : string) :
  mode <> "target"%string -> mode <> "avoid"%string ->
  forall l : list SensorState,
    ((exists o, In o l /\ 0 < norm (sensors.payload o))
     /\ select mode zeros l = Raise NotImplementedError)
    \/ ((forall o, In o l -> norm (sensors.payload o) <= 0)
        /\ select mode zeros l = Ok zeros).
Proof.
  intros Ht Ha. apply String.eqb_neq in Ht, Ha.
  induction l as [| o rest IH].
  - right. split; [intros o [] | reflexivity].
  - simpl. rewrite Ht, Ha, norm_zeros. unfold Rgtb.
    destruct (Rlt_dec 0 (norm (sensors.payload o))) as [Hgt | Hle].
    + rewrite Rltb_true by exact Hgt. left. split; [| reflexivity].
      exists o. split; [left; reflexivity | exact Hgt].
    + rewrite Rltb_false by lra.
      destruct IH as [[(x & Hx & Hpos) E] | [Hall E]].
      * left. split; [| exact E].
        exists x. split; [right; exact Hx | exact Hpos].
      * right. split; [| exact E].
        intros x [<- | Hx]; [lra | apply Hall, Hx].
Qed.

Lemma first_largest_split (l1 l2 : list SensorState) (o : SensorState) :
  (forall x, In x l1 -> norm (sensors.payload x) < norm (sensors.payload o)) ->
  (forall x, In x l2 -> norm (sensors.payload x) <= norm (sensors.payload o)) ->
  first_largest (l1 ++ o :: l2) (List.length l1) o.
Proof.
  intros H1 H2. repeat split.
  - rewrite nth_error_app2, Nat.sub_diag by lia. reflexivity.
  - intros x Hx. apply in_app_or in Hx. destruct Hx as [Hx | [<- | Hx]].
    + apply Rlt_le, H1, Hx.
    + lra.
    + apply H2, Hx.
  - intros j x Hj Hx. rewrite nth_error_app1 in Hx by exact Hj.
    apply H1. eapply nth_error_In, Hx.
Qed.

End Select.

(** ** The call of [RangingOracleController] *)

Lemma call_of_select (c : control.RangingOracleController)
  (state : control.observations) (v : vec) :
  control.select (control.mode c) zeros (control.as_collection state) = Ok v ->
  returns_payload c state v.
Proof.
  intros E. unfold returns_payload, control.RangingOracleController_call.
  rewrite E; simpl. split.
  - intros sig c' H.
    destruct (control.record _ _ _) as [h |]; simpl in H; [| discriminate].
    injection H as <- <-. reflexivity.
  - intros Hn.
    destruct (record_cases (control.buffer_size c) (control.history c) v) as [[h Eh] | Eh].
    + rewrite Eh; simpl. eauto.
    + exfalso. unfold control.record in Eh.
      destruct (Z.leb_spec (control.buffer_size c)
                           (Z.of_nat (List.length (control.history c)))) as [Hle | Hlt];
        [| discriminate].
      destruct (control.history c); simpl in *; [lia | discriminate].
Qed.

Lemma call_raises_of_select (c : control.RangingOracleController)
  (state : control.observations) (e : exn) :
  control.select (control.mode c) zeros (control.as_collection state) = Raise e ->
  control.RangingOracleController_call c state = Raise e.
Proof.
  intros E. unfold control.RangingOracleController_call. rewrite E. reflexivity.
Qed.

Lemma record_at_capacity {A : Type} (n : Z) (h h' : list A) (x : A) :
  (n <= Z.of_nat (List.length h))%Z ->
  control.record n h x = Ok h' ->
  exists h0 newest, h = h0 ++ [newest] /\ h' = h0 ++ [x].
Proof.
  intros Hn E. destruct h as [| y h].
  - unfold control.record in E. simpl in E.
    destruct (Z.leb_spec n 0); [discriminate | simpl in Hn; lia].
  - destruct (@exists_last _ (y :: h)) as [h0 [newest Eh]]; [discriminate |].
    rewrite Eh in *. rewrite record_full in E by exact Hn.
    injection E as <-. eauto.
Qed.

(** ** C6 *)

(** C6.  For the random and the ranging-oracle controllers built with a
    buffer capacity of at least 1 (hence with an empty history), the
    history is never longer than the capacity after any sequence of
    invocations of [__call__], whether they return or raise. *)
Theorem history_never_exceeds_capacity (capacity : Z) :
  (1 <= capacity)%Z ->
  (forall (gain : R) (inputs : list (vec * control.observations)),
      (Z.of_nat (List.length
                   (control.random_history
                      (control.after_all control.random_call
                         (control.RandomController_init gain capacity) inputs)))
       <= capacity)%Z)
  /\ (forall (mode : string) (inputs : list control.observations),
         (Z.of_nat (List.length
                      (control.history
                         (control.after_all control.RangingOracleController_call
                            (control.RangingOracleController_init mode capacity)
                            inputs)))
          <= capacity)%Z).
Proof.
  intros Hc.
  assert (Hn : (1 <= Z.to_nat capacity)%nat) by lia.
  assert (E : capacity = Z.of_nat (Z.to_nat capacity)) by lia.
  split.
  - intros gain inputs.
    pose proof (history_is_bounded _ _ _ _ control.random_call
                  control.random_history control.random_buffer_size
                  (fun o => o) (Z.to_nat capacity) Hn random_call_records inputs
                  (control.RandomController_init gain capacity) E eq_refl).
    lia.
  - intros mode inputs.
    pose proof (history_is_bounded _ _ _ _ control.RangingOracleController_call
                  control.history control.buffer_size
                  control.payload (Z.to_nat capacity) Hn ranging_call_records inputs
                  (control.RangingOracleController_init mode capacity) E eq_refl).
    lia.
Qed.

Lemma history_never_exceeds_capacity_witness :
  (1 <= 2)%Z
  /\ (Z.of_nat (List.length
                  (control.history
                     (control.after_all control.RangingOracleController_call
                        (control.RangingOracleController_init "target" 2)
                        [observe 1 0; observe 2 0; observe 3 0])))
      <= 2)%Z.
Proof.
  assert (H : (1 <= 2)%Z) by lia.
  split; [exact H |].
  exact (proj2 (history_never_exceeds_capacity 2 H) "target"%string _).
Defined.

(** ** C3 *)

Lemma ranging_target_single (c : control.RangingOracleController) (x y : R) :
  control.mode c = "target"%string -> 0 < x * x + y * y ->
  control.RangingOracleController_call c (observe x y)
  = h <- control.record (control.buffer_size c) (control.history c) (x, y) ;;
    Ok (control.mkControlSignal (x, y)
          (Some [("name", "RangingOracleController"); ("mode", "target")]%string),
        control.mkRangingOracleController "target" (control.buffer_size c) h).
Proof.
  intros Hm Hpos. unfold control.RangingOracleController_call, observe.
  rewrite Hm. simpl.
  rewrite Rgtb_norm_true by (unfold zeros; simpl; lra).
  reflexivity.
Qed.

(** C3, refuted as stated.  The ranging-oracle controller [two_recorded],
    of capacity 2, recorded [(1,0)] then [(2,0)] and is at capacity;
    recording [(3,0)]
    leaves [(1,0); (3,0)]: the entry evicted is [(2,0)], the newest, and
    not [(1,0)], the oldest, which would have left [(2,0); (3,0)]. *)
Lemma oldest_entry_is_not_evicted :
  control.history two_recorded = [(1, 0); (2, 0)]
  /\ Z.of_nat (List.length (control.history two_recorded))
     = control.buffer_size two_recorded
  /\ control.history
       (control.after control.RangingOracleController_call two_recorded (observe 3 0))
     = [(1, 0); (3, 0)]
  /\ control.history
       (control.after control.RangingOracleController_call two_recorded (observe 3 0))
     <> [(2, 0); (3, 0)].
Proof.
  assert (E : two_recorded
              = control.mkRangingOracleController "target" 2 [(1, 0); (2, 0)]).
  { unfold two_recorded, control.after_all; simpl. unfold control.after at 2.
    rewrite ranging_target_single by (reflexivity || lra). simpl.
    unfold control.after.
    rewrite ranging_target_single by (reflexivity || lra). reflexivity. }
  rewrite E.
  assert (E3 : control.after control.RangingOracleController_call
                 (control.mkRangingOracleController "target" 2 [(1, 0); (2, 0)])
                 (observe 3 0)
               = control.mkRangingOracleController "target" 2 [(1, 0); (3, 0)]).
  { unfold control.after.
    rewrite ranging_target_single by (reflexivity || lra). reflexivity. }
  rewrite E3. simpl. repeat split.
  intros H. injection H as H. lra.
Qed.

(** C3, as the code has it.  When the history is at (or beyond) its
    capacity and a control is recorded, the entry evicted is the one
    inserted last, and the new control takes its place at the end.  Hence,
    from an empty history of capacity [n >= 1], after any sequence of
    invocations the history is [kept n] of the recorded items: all of them
    while they fit, otherwise the first [n - 1] ever recorded followed by
    the latest one. *)
Theorem newest_entry_is_evicted (n : nat) :
  (1 <= n)%nat ->
  (forall c sample state sig c',
      (control.random_buffer_size c
       <= Z.of_nat (List.length (control.random_history c)))%Z ->
      control.RandomController_call c sample state = Ok (sig, c') ->
      exists h newest,
        control.random_history c = h ++ [newest]
        /\ control.random_history c' = h ++ [sig])
  /\ (forall c state sig c',
         (control.buffer_size c <= Z.of_nat (List.length (control.history c)))%Z ->
         control.RangingOracleController_call c state = Ok (sig, c') ->
         exists h newest,
           control.history c = h ++ [newest]
           /\ control.history c' = h ++ [control.payload sig])
  /\ (forall gain inputs,
         control.random_history
           (control.after_all control.random_call
              (control.RandomController_init gain (Z.of_nat n)) inputs)
         = kept n (control.returned control.random_call
                     (control.RandomController_init gain (Z.of_nat n)) inputs))
  /\ (forall mode inputs,
         control.history
           (control.after_all control.RangingOracleController_call
              (control.RangingOracleController_init mode (Z.of_nat n)) inputs)
         = kept n (map control.payload
                     (control.returned control.RangingOracleController_call
                        (control.RangingOracleController_init mode (Z.of_nat n))
                        inputs))).
Proof.
  intros Hn. repeat split.
  - intros c sample state sig c' Hfull E.
    destruct (random_call_records c (sample, state) sig c' E) as [_ Hr].
    eapply record_at_capacity; eassumption.
  - intros c state sig c' Hfull E.
    destruct (ranging_call_records c state sig c' E) as [_ Hr].
    eapply record_at_capacity; eassumption.
  - intros gain inputs.
    rewrite (history_is_kept _ _ _ _ control.random_call control.random_history
               control.random_buffer_size (fun o => o) n Hn random_call_records
               inputs _ []) by reflexivity.
    simpl. rewrite map_id. reflexivity.
  - intros mode inputs.
    rewrite (history_is_kept _ _ _ _ control.RangingOracleController_call
               control.history control.buffer_size control.payload n Hn
               ranging_call_records inputs _ []) by reflexivity.
    reflexivity.
Qed.

Lemma newest_entry_is_evicted_witness :
  (1 <= 2)%nat
  /\ control.history
       (control.after_all control.RangingOracleController_call
          (control.RangingOracleController_init "target" (Z.of_nat 2))
          [observe 1 0; observe 2 0; observe 3 0])
     = kept 2 (map control.payload
                 (control.returned control.RangingOracleController_call
                    (control.RangingOracleController_init "target" (Z.of_nat 2))
                    [observe 1 0; observe 2 0; observe 3 0])).
Proof.
  assert (H : (1 <= 2)%nat) by lia.
  split; [exact H |].
  exact (proj2 (proj2 (proj2 (newest_entry_is_evicted 2 H))) "target"%string _).
Defined.

(** ** C4 *)

(** C4, refuted as stated.  A controller in the unknown mode "hover",
    called on a collection whose only observation is the zero vector,
    returns the zero control signal and records it: nothing is raised. *)
Lemma unknown_mode_call_returns :
  control.RangingOracleController_call
    (control.RangingOracleController_init "hover" 1000)
    (control.Collection [sensors.mkSensorState zeros None])
  = Ok (control.mkControlSignal zeros
          (Some [("name", "RangingOracleController"); ("mode", "hover")]%string),
        control.mkRangingOracleController "hover" 1000 [zeros]).
Proof.
  unfold control.RangingOracleController_call. simpl.
  rewrite Rgtb_norm_false by lra. reflexivity.
Qed.

(** C4, as the code has it.  For a controller whose mode is neither
    "target" nor "avoid", an invocation of [__call__] raises
    [NotImplementedError] exactly when some observation of the collection
    has a positive norm: the mode is examined only when an observation
    beats the running control, which starts at zero.  On a collection
    without such an observation the mode is never examined and the zero
    control goes to the closing lines of the method: with an empty history
    and a capacity of zero or less, [pop] raises [IndexError]; in every
    other case the call returns the zero control signal, recorded at the
    end of the history, in place of its last entry when the history was at
    capacity. *)
Theorem unknown_mode_raises_on_nonzero_observation
  (c : control.RangingOracleController) (state : control.observations) :
  control.mode c <> "target"%string -> control.mode c <> "avoid"%string ->
  (control.RangingOracleController_call c state = Raise NotImplementedError
   <-> exists o, In o (control.as_collection state) /\ 0 < norm (sensors.payload o))
  /\ ((forall o, In o (control.as_collection state) -> ~ 0 < norm (sensors.payload o)) ->
      ((control.buffer_size c <= 0)%Z -> control.history c = [] ->
       control.RangingOracleController_call c state = Raise IndexError)
      /\ ((1 <= control.buffer_size c)%Z \/ control.history c <> [] ->
          control.RangingOracleController_call c state
          = Ok (control.mkControlSignal zeros
                  (Some [("name", "RangingOracleController");
                         ("mode", control.mode c)]%string),
                control.mkRangingOracleController
                  (control.mode c) (control.buffer_size c)
                  (if (control.buffer_size c
                       <=? Z.of_nat (List.length (control.history c)))%Z
                   then removelast (control.history c) ++ [zeros]
                   else control.history c ++ [zeros])))).
Proof.
  intros Ht Ha.
  destruct (select_invalid (control.mode c) Ht Ha (control.as_collection state))
    as [[Hex E] | [Hall E]].
  - split.
    + split; [intros _; exact Hex | intros _; apply call_raises_of_select, E].
    + intros Hall. destruct Hex as (o & Ho & Hpos). destruct (Hall o Ho Hpos).
  - split.
    + split.
      * intros H. unfold control.RangingOracleController_call in H.
        rewrite E in H; simpl in H.
        destruct (record_cases (control.buffer_size c) (control.history c) zeros)
          as [[h Eh] | Eh]; rewrite Eh in H; discriminate.
      * intros (o & Ho & Hpos). specialize (Hall o Ho). lra.
    + intros _. unfold control.RangingOracleController_call.
      rewrite E; simpl. unfold control.record. split.
      * intros Hb Hh. rewrite Hh; simpl.
        destruct (Z.leb_spec (control.buffer_size c) 0); [reflexivity | lia].
      * intros Hb.
        destruct (Z.leb_spec (control.buffer_size c)
                             (Z.of_nat (List.length (control.history c))))
          as [Hle | Hlt]; [| reflexivity].
        destruct (control.history c) as [| x h] eqn:Eh; [| reflexivity].
        simpl in Hle. destruct Hb as [Hb | Hb]; [lia | contradiction].
Qed.

Lemma unknown_mode_raises_on_nonzero_observation_witness :
  ("hover" <> "target")%string /\ ("hover" <> "avoid")%string
  /\ (forall o, In o (control.as_collection (observe 0 0)) ->
                ~ 0 < norm (sensors.payload o))
  /\ control.RangingOracleController_call
       (control.RangingOracleController_init "hover" 0) (observe 0 0)
     = Raise IndexError.
Proof.
  assert (Ht : ("hover" <> "target")%string) by discriminate.
  assert (Ha : ("hover" <> "avoid")%string) by discriminate.
  assert (Hz : forall o, In o (control.as_collection (observe 0 0)) ->
                         ~ 0 < norm (sensors.payload o)).
  { intros o [<- | []]. simpl. fold zeros. rewrite norm_zeros. lra. }
  split; [exact Ht |]. split; [exact Ha |]. split; [exact Hz |].
  apply (proj1 (proj2 (unknown_mode_raises_on_nonzero_observation
                         (control.RangingOracleController_init "hover" 0)
                         (observe 0 0) Ht Ha) Hz)).
  - simpl. lia.
  - reflexivity.
Defined.

(** ** C5 *)

(** C5.  Called in "target" or "avoid" mode on a non-empty collection, the
    controller selects the first observation of largest Euclidean norm:
    the control it returns has the payload [(x, y)] of that observation in
    "target" mode and [(-x, -y)] in "avoid" mode (it returns whenever the
    capacity of the history is at least one).  In particular, of two
    observations of norms 3 and 5 the one of norm 5 is selected in either
    order. *)
Theorem largest_observation_is_selected
  (c : control.RangingOracleController) (state : control.observations) :
  control.mode c = "target"%string \/ control.mode c = "avoid"%string ->
  control.as_collection state <> [] ->
  (exists i o v,
      first_largest (control.as_collection state) i o
      /\ returns_payload c state v
      /\ (control.mode c = "target"%string -> v = sensors.payload o)
      /\ (control.mode c = "avoid"%string ->
          v = (- fst (sensors.payload o), - snd (sensors.payload o))))
  /\ (forall a b,
         norm (sensors.payload a) = 3 -> norm (sensors.payload b) = 5 ->
         (control.mode c = "target"%string ->
          returns_payload c (control.Collection [a; b]) (sensors.payload b)
          /\ returns_payload c (control.Collection [b; a]) (sensors.payload b))
         /\ (control.mode c = "avoid"%string ->
             returns_payload c (control.Collection [a; b])
               (- fst (sensors.payload b), - snd (sensors.payload b))
             /\ returns_payload c (control.Collection [b; a])
                  (- fst (sensors.payload b), - snd (sensors.payload b)))).
Proof.
  intros Hmode Hne.
  assert (Hadj : forall p,
             (control.mode c = "target"%string -> adjusted (control.mode c) p = p)
             /\ (control.mode c = "avoid"%string ->
                 adjusted (control.mode c) p = (- fst p, - snd p))).
  { intros p. unfold adjusted. split; intros ->; reflexivity. }
  split.
  - destruct (select_valid (control.mode c) Hmode (control.as_collection state) zeros)
      as [[E Hall] | (l1 & o & l2 & El & Hlt & H1 & H2 & E)].
    + destruct (control.as_collection state) as [| o rest] eqn:El; [contradiction |].
      rewrite norm_zeros in Hall.
      assert (Ho : sensors.payload o = zeros)
        by (apply norm_zero_inv, Hall; left; reflexivity).
      exists 0%nat, o, (adjusted (control.mode c) (sensors.payload o)).
      split; [| split; [| apply Hadj]].
      * repeat split.
        -- intros x Hx. rewrite Ho, norm_zeros. apply Hall, Hx.
        -- intros j x Hj. lia.
      * apply call_of_select. rewrite El, E, Ho, adjusted_zeros. reflexivity.
    + exists (List.length l1), o, (adjusted (control.mode c) (sensors.payload o)).
      split; [| split; [| apply Hadj]].
      * rewrite El. apply first_largest_split; assumption.
      * apply call_of_select, E.
  - intros a b Ha Hb.
    assert (H : returns_payload c (control.Collection [a; b])
                  (adjusted (control.mode c) (sensors.payload b))
                /\ returns_payload c (control.Collection [b; a])
                     (adjusted (control.mode c) (sensors.payload b))).
    { split; apply call_of_select; simpl control.as_collection;
        rewrite !select_cons_valid by exact Hmode;
        rewrite ?norm_adjusted, ?norm_zeros, Ha, Hb; unfold Rgtb.
      + rewrite (Rltb_true 0 3), (Rltb_true 3 5) by lra. reflexivity.
      + rewrite (Rltb_true 0 5), (Rltb_false 5 3) by lra. reflexivity. }
    split; intros Hm.
    + rewrite (proj1 (Hadj (sensors.payload b)) Hm) in H. exact H.
    + rewrite (proj2 (Hadj (sensors.payload b)) Hm) in H. exact H.
Qed.

(** Among [tied], the first observation of largest norm is the second
    one, [(0,5)]: the first has a smaller norm, and the later ones, of the
    same norm, come after it. *)
Lemma first_largest_of_tied (i : nat) (o : sensors.SensorState) :
  first_largest tied i o -> i = 1%nat /\ sensors.payload o = (0, 5).
Proof.
  intros (Hi & Hall & Hbefore).
  assert (H35 : norm (3, 0) < norm (0, 5)) by (apply norm_lt_iff; simpl; lra).
  assert (H55 : ~ norm (0, 5) < norm (-5, 0))
    by (intros H; apply norm_lt_iff in H; simpl in H; lra).
  assert (H53 : ~ norm (0, 5) < norm (4, 3))
    by (intros H; apply norm_lt_iff in H; simpl in H; lra).
  destruct i as [| [| [| [| i]]]]; simpl in Hi.
  - injection Hi as <-.
    pose proof (Hall (sensors.mkSensorState (0, 5) None)
                  (or_intror (or_introl eq_refl))) as H.
    simpl in H. lra.
  - injection Hi as <-. split; reflexivity.
  - injection Hi as <-.
    pose proof (Hbefore 1%nat (sensors.mkSensorState (0, 5) None)
                  ltac:(lia) eq_refl) as H.
    contradiction.
  - injection Hi as <-.
    pose proof (Hbefore 1%nat (sensors.mkSensorState (0, 5) None)
                  ltac:(lia) eq_refl) as H.
    contradiction.
  - destruct i; discriminate.
Qed.

Lemma largest_observation_is_selected_witness :
  (control.mode (control.RangingOracleController_init "avoid" 1000) = "target"%string
   \/ control.mode (control.RangingOracleController_init "avoid" 1000) = "avoid"%string)
  /\ control.as_collection (control.Collection tied) <> []
  /\ returns_payload (control.RangingOracleController_init "avoid" 1000)
                     (control.Collection tied) (- 0, - 5).
Proof.
  assert (Hm : control.mode (control.RangingOracleController_init "avoid" 1000)
               = "target"%string
               \/ control.mode (control.RangingOracleController_init "avoid" 1000)
                  = "avoid"%string) by (right; reflexivity).
  assert (Hne : control.as_collection (control.Collection tied) <> []) by discriminate.
  split; [exact Hm |]. split; [exact Hne |].
  destruct (proj1 (largest_observation_is_selected
                     (control.RangingOracleController_init "avoid" 1000)
                     (control.Collection tied) Hm Hne))
    as (i & o & v & Hfirst & Hret & _ & Havoid).
  destruct (first_largest_of_tied i o Hfirst) as [_ Ho].
  rewrite (Havoid eq_refl), Ho in Hret. exact Hret.
Defined.

(** ** C8 *)

Lemma translate_keeps_extent (room : world.ClosedRoom) (t : vec) :
  world.half_width (world.ClosedRoom_translate room t) = world.half_width room
  /\ world.half_height (world.ClosedRoom_translate room t) = world.half_height room.
Proof. split; reflexivity. Qed.

Lemma translations_keep_extent (ts : list vec) :
  forall room : world.ClosedRoom,
    world.half_width (fold_left world.ClosedRoom_translate ts room)
    = world.half_width room
    /\ world.half_height (fold_left world.ClosedRoom_translate ts room)
       = world.half_height room.
Proof.
  induction ts as [| t ts IH]; intros room; simpl; [split; reflexivity |].
  destruct (IH (world.ClosedRoom_translate room t)) as [Hw Hh].
  rewrite Hw, Hh. split; reflexivity.
Qed.

Lemma inside_iff (room : world.ClosedRoom) (point : vec) :
  world.ClosedRoom_inside room point = true
  <-> Rabs (fst point - fst (world.origin room)) < world.half_width room
      /\ Rabs (snd point - snd (world.origin room)) < world.half_height room.
Proof.
  unfold world.ClosedRoom_inside, Rgtb.
  rewrite !andb_true_iff, !Rltb_spec.
  split.
  - intros [[H1 H2] [H3 H4]]. split; apply Rabs_def1; assumption.
  - intros [H1 H2]. apply Rabs_def2 in H1, H2. tauto.
Qed.

(** C8.  For a room built with a positive width and height, and moved by
    any sequence of translations, [inside(point)] holds exactly when the
    offset of the point from the origin of the room is, in absolute value,
    strictly less than half the width on the x axis and strictly less than
    half the height on the y axis.  A point on the boundary, at exactly
    half the width or half the height, is not inside. *)
Theorem inside_is_strict (w h : R) (ts : list vec) (point : vec) :
  0 < w -> 0 < h ->
  let room := fold_left world.ClosedRoom_translate ts (world.ClosedRoom_init w h) in
  (world.ClosedRoom_inside room point = true
   <-> Rabs (fst point - fst (world.origin room)) < w / 2
       /\ Rabs (snd point - snd (world.origin room)) < h / 2)
  /\ (Rabs (fst point - fst (world.origin room)) = w / 2
      \/ Rabs (snd point - snd (world.origin room)) = h / 2 ->
      world.ClosedRoom_inside room point = false).
Proof.
  intros Hw Hh room.
  destruct (translations_keep_extent ts (world.ClosedRoom_init w h)) as [Ew Eh].
  fold room in Ew, Eh. simpl in Ew, Eh.
  pose proof (inside_iff room point) as Hin. rewrite Ew, Eh in Hin.
  split; [exact Hin |].
  intros Hb. apply not_true_is_false. intros Ht. apply Hin in Ht. lra.
Qed.

Lemma inside_is_strict_witness :
  0 < 5 /\ 0 < 5
  /\ world.ClosedRoom_inside
       (fold_left world.ClosedRoom_translate [] (world.ClosedRoom_init 5 5))
       (5 / 2, 0) = false.
Proof.
  assert (Hw : 0 < 5) by lra.
  split; [exact Hw |]. split; [exact Hw |].
  apply (proj2 (inside_is_strict 5 5 [] (5 / 2, 0) Hw Hw)).
  left. simpl. rewrite Rminus_0_r. apply Rabs_pos_eq. lra.
Defined.

(** ** C7 *)

(** C7.  Whatever [normalize] is, when the segment and the normal of the
    normalised ray direction have a zero dot product (the ray is parallel
    to the segment), [ray_intersection] returns the empty list: no point
    at all, hence not the ray origin either.  The function is total: it
    raises nothing. *)
Theorem parallel_ray_has_no_intersection (normalize : vec -> vec)
  (segment : world.BoundarySegment) (ray_origin ray_direction : vec) :
  dot (sub (snd (world.endpoints segment)) (fst (world.endpoints segment)))
      (- snd (normalize ray_direction), fst (normalize ray_direction)) = 0 ->
  world.ray_intersection normalize segment ray_origin ray_direction = []
  /\ world.ray_intersection normalize segment ray_origin ray_direction <> [ray_origin].
Proof.
  intros H. unfold world.ray_intersection.
  rewrite (Rneqb_eq _ _ H). split; [reflexivity | discriminate].
Qed.

Lemma parallel_ray_has_no_intersection_witness :
  dot (sub (snd (world.endpoints (world.mkBoundarySegment ((0, 0), (1, 0)) (0, 1))))
           (fst (world.endpoints (world.mkBoundarySegment ((0, 0), (1, 0)) (0, 1)))))
      (- snd (world.unit_vector (1, 0)), fst (world.unit_vector (1, 0))) = 0
  /\ world.ray_intersection world.unit_vector
       (world.mkBoundarySegment ((0, 0), (1, 0)) (0, 1)) (0, 1) (1, 0) = [].
Proof.
  assert (H : dot (sub (snd (world.endpoints
                               (world.mkBoundarySegment ((0, 0), (1, 0)) (0, 1))))
                       (fst (world.endpoints
                               (world.mkBoundarySegment ((0, 0), (1, 0)) (0, 1)))))
                  (- snd (world.unit_vector (1, 0)), fst (world.unit_vector (1, 0)))
              = 0).
  { unfold dot, sub, world.unit_vector; simpl. unfold Rdiv. ring. }
  split; [exact H |].
  exact (proj1 (parallel_ray_has_no_intersection world.unit_vector
                  (world.mkBoundarySegment ((0, 0), (1, 0)) (0, 1)) (0, 1) (1, 0) H)).
Defined.

(** ** C9 *)

Section ScaledRays.

Import Floats.
Local Open Scope float_scope.

(** C9, refuted as stated.  In binary64, with Euclidean normalisation,
    the ray cast from the origin along [d = (8, -1)] meets the segment
    from [(1, -1)] to [(1, 1)] at [(1, -0.125)]; along [7 * d = (56, -7)]
    the point returned is [(0.9999999999999999, -0.12499999999999999)]:
    the two normalised directions differ in their last bits, and so do
    the two results. *)
Lemma scaled_direction_moves_the_intersection :
  float64.scale 7 (8, -1) = (56, -7)
  /\ float64.ray_intersection float64.unit_vector float64.east_wall (0, 0) (8, -1)
     = [(1, -0.125)]
  /\ float64.ray_intersection float64.unit_vector float64.east_wall (0, 0)
       (float64.scale 7 (8, -1))
     = [(0x1.fffffffffffffp-1, -0x1.fffffffffffffp-4)]
  /\ float64.ray_intersection float64.unit_vector float64.east_wall (0, 0)
       (float64.scale 7 (8, -1))
     <> float64.ray_intersection float64.unit_vector float64.east_wall (0, 0) (8, -1).
Proof.
  split; [vm_compute; reflexivity |].
  split; [vm_compute; reflexivity |].
  split; [vm_compute; reflexivity |].
  intros H.
  apply (f_equal (fun l => match l with
                           | [p] => PrimFloat.eqb (fst p) 1
                           | _ => false
                           end)) in H.
  vm_compute in H. discriminate.
Qed.

(** C9, as the code has it.  [ray_intersection] uses the direction only
    through [normalize]: for every segment, ray origin, direction [d] and
    scalar [c], whenever [normalize(c * d)] and [normalize(d)] are the
    same vector of binary64 numbers, [ray_intersection(origin, c * d)] is
    the same list (empty or not, and with the same point) as
    [ray_intersection(origin, d)]. *)
Theorem scaled_ray_same_when_normalized_same
  (normalize : float64.vec -> float64.vec) (segment : float64.BoundarySegment)
  (ray_origin d : float64.vec) (c : float) :
  normalize (float64.scale c d) = normalize d ->
  float64.ray_intersection normalize segment ray_origin (float64.scale c d)
  = float64.ray_intersection normalize segment ray_origin d.
Proof.
  intros H. unfold float64.ray_intersection. rewrite H. reflexivity.
Qed.

Lemma scaled_ray_same_when_normalized_same_witness :
  float64.unit_vector (float64.scale 2 (8, -1)) = float64.unit_vector (8, -1)
  /\ float64.ray_intersection float64.unit_vector float64.east_wall (0, 0)
       (float64.scale 2 (8, -1))
     = float64.ray_intersection float64.unit_vector float64.east_wall (0, 0) (8, -1).
Proof.
  assert (H : float64.unit_vector (float64.scale 2 (8, -1))
              = float64.unit_vector (8, -1)) by (vm_compute; reflexivity).
  split; [exact H |].
  exact (scaled_ray_same_when_normalized_same float64.unit_vector
           float64.east_wall (0, 0) (8, -1) 2 H).
Defined.

End ScaledRays.

(** ** C10 *)

Lemma min_of_spec (rest : list R) :
  forall first : R,
    In (world.min_of first rest) (first :: rest)
    /\ forall x, In x (first :: rest) -> world.min_of first rest <= x.
Proof.
  induction rest as [| y rest IH]; intros first.
  - simpl. split; [left; reflexivity | intros x [<- | []]; lra].
  - unfold world.min_of; simpl. fold (world.min_of (if Rltb y first then y else first) rest).
    destruct (IH (if Rltb y first then y else first)) as [Hin Hle].
    unfold Rltb in *. destruct (Rlt_dec y first) as [Hlt | Hge].
    + split.
      * destruct Hin as [<- | Hin]; [right; left; reflexivity | right; right; exact Hin].
      * intros x [<- | [<- | Hx]].
        -- assert (world.min_of y rest <= y) by (apply Hle; left; reflexivity). lra.
        -- apply Hle; left; reflexivity.
        -- apply Hle; right; exact Hx.
    + split.
      * destruct Hin as [<- | Hin]; [left; reflexivity | right; right; exact Hin].
      * intros x [<- | [<- | Hx]].
        -- apply Hle; left; reflexivity.
        -- assert (world.min_of first rest <= first) by (apply Hle; left; reflexivity). lra.
        -- apply Hle; right; exact Hx.
Qed.

Section HouseDistance.

Variable normalize : vec -> vec.
Variables point direction : vec.

Lemma hit_distances_cons (room : world.ClosedRoom) (rest : list world.ClosedRoom) :
  hit_distances normalize point direction (room :: rest)
  = world.wall_distances normalize (world.walls room) point direction
    ++ hit_distances normalize point direction rest.
Proof. reflexivity. Qed.

(** Once the running minimum is an [np.float64] the loop cannot fail:
    it returns the least of that value and of the hit distances of the
    remaining rooms. *)
Lemma house_loop_from_float (rooms : list world.ClosedRoom) :
  forall m : R,
  exists m',
    world.House_distance_loop normalize rooms point direction (world.NpFloat m)
    = Ok (world.NpFloat m')
    /\ In m' (m :: hit_distances normalize point direction rooms)
    /\ forall x, In x (m :: hit_distances normalize point direction rooms) -> m' <= x.
Proof.
  induction rooms as [| room rest IH]; intros m.
  - exists m. simpl. repeat split; [left; reflexivity | intros x [<- | []]; lra].
  - rewrite hit_distances_cons. simpl world.House_distance_loop.
    unfold world.ClosedRoom_distance_to_boundary.
    destruct (world.wall_distances normalize (world.walls room) point direction)
      as [| d ds] eqn:E.
    + simpl. apply IH.
    + destruct (min_of_spec ds d) as [Hin Hle].
      simpl bind. unfold Rltb.
      destruct (Rlt_dec (world.min_of d ds) m) as [Hlt | Hge].
      * destruct (IH (world.min_of d ds)) as (m' & Em & Hm & Hall).
        exists m'. split; [exact Em |].
        assert (Hmin : m' <= world.min_of d ds) by (apply Hall; left; reflexivity).
        split.
        -- right. apply in_or_app.
           destruct Hm as [Hm | Hm]; [left; rewrite <- Hm; exact Hin | right; exact Hm].
        -- intros x [Hx | Hx]; [lra |].
           apply in_app_or in Hx. destruct Hx as [Hx | Hx].
           ++ specialize (Hle x Hx). lra.
           ++ apply Hall. right. exact Hx.
      * destruct (IH m) as (m' & Em & Hm & Hall).
        exists m'. split; [exact Em |].
        assert (Hmin : m' <= m) by (apply Hall; left; reflexivity).
        split.
        -- destruct Hm as [Hm | Hm]; [left; exact Hm |].
           right. apply in_or_app. right. exact Hm.
        -- intros x [Hx | Hx]; [lra |].
           apply in_app_or in Hx. destruct Hx as [Hx | Hx].
           ++ specialize (Hle x Hx). lra.
           ++ apply Hall. right. exact Hx.
Qed.

End HouseDistance.

Lemma unit_vector_up : world.unit_vector (0, 1) = (0, 1).
Proof.
  unfold world.unit_vector, norm; simpl.
  replace (0 * 0 + 1 * 1) with 1 by ring. rewrite sqrt_1.
  f_equal; field.
Qed.

(** Deciding the comparisons of closed real expressions: the operands of
    a quotient are first brought to a numeral. *)
Ltac simplify_quotients :=
  repeat match goal with
         | |- context [?a / ?b] =>
             first [progress (field_simplify a) | progress (field_simplify b)]
         end.

Ltac decide_test :=
  match goal with
  | |- context [Rneqb ?a ?b] =>
      first [rewrite (Rneqb_eq a b) by lra | rewrite (Rneqb_neq a b) by lra]
  | |- context [Rleb ?a ?b] =>
      first [rewrite (Rleb_true a b) by lra | rewrite (Rleb_false a b) by lra]
  | |- context [Rltb ?a ?b] =>
      first [rewrite (Rltb_true a b) by lra | rewrite (Rltb_false a b) by lra]
  end.

Ltac cast_rays :=
  cbv [world.ClosedRoom_init world.ClosedRoom_translate
       world.BoundarySegment_translate map world.walls world.wall_distances
       world.ray_intersection];
  rewrite ?unit_vector_up;
  cbv [dot cross sub add scale fst snd world.endpoints Rgeb Rgtb];
  repeat (decide_test; cbv iota beta; cbn [andb]);
  simplify_quotients;
  repeat (decide_test; cbv iota beta; cbn [andb]).

Lemma norm_up : norm (0, 1) = 1.
Proof.
  unfold norm; simpl. replace (0 * 0 + 1 * 1) with 1 by ring. apply sqrt_1.
Qed.

(** From the centre of a 2 x 2 room, the upward ray hits the top wall only,
    at distance 1. *)
Lemma centre_room_hit :
  world.wall_distances world.unit_vector
    (world.walls (world.ClosedRoom_init 2 2)) (0, 0) (0, 1) = [1].
Proof.
  cast_rays.
  replace (0 + 2 / 2 * 0 - 0, 0 + 2 / 2 * 1 - 0) with (0, 1) by (f_equal; lra).
  rewrite norm_up. reflexivity.
Qed.

(** The same ray misses every wall of the same room moved to [(10, 0)]. *)
Lemma far_room_miss :
  world.wall_distances world.unit_vector
    (world.walls (world.ClosedRoom_translate (world.ClosedRoom_init 2 2) (10, 0)))
    (0, 0) (0, 1) = [].
Proof.
  cast_rays. reflexivity.
Qed.

(** C10, refuted as stated.  In a house of two rooms, the ray of the
    second room hits no wall (the room returns the list [[inf]]), and yet
    [House.distance_to_boundary] does not fail: the first room has made
    the running minimum an [np.float64], against which the comparison of
    the list is the array [[False]].  The call returns the scalar 1. *)
Lemma no_hit_room_does_not_fail :
  world.ClosedRoom_distance_to_boundary world.unit_vector
    (world.ClosedRoom_translate (world.ClosedRoom_init 2 2) (10, 0)) (0, 0) (0, 1)
  = world.InfList
  /\ world.House_distance_to_boundary world.unit_vector
       (world.House_init
          (world.Rooms [world.ClosedRoom_init 2 2;
                        world.ClosedRoom_translate (world.ClosedRoom_init 2 2) (10, 0)]))
       (0, 0) (0, 1)
     = Ok (world.NpFloat 1).
Proof.
  unfold world.House_distance_to_boundary.
  cbn [world.House_init world.rooms world.House_distance_loop].
  unfold world.ClosedRoom_distance_to_boundary.
  rewrite centre_room_hit, far_room_miss. split; reflexivity.
Qed.

(** C10, as the code has it.  For a house whose first room is [room]:
    when the ray hits no wall of the first room, the list [[inf]] meets
    the Python float [np.inf] and [House.distance_to_boundary] raises
    [TypeError]; when it hits a wall of the first room the call returns a
    scalar, the least hit distance over all the rooms, a later room whose
    ray hits no wall being skipped. *)
Theorem house_distance_fails_when_first_room_misses (normalize : vec -> vec)
  (room : world.ClosedRoom) (rest : list world.ClosedRoom) (point direction : vec) :
  (world.ClosedRoom_distance_to_boundary normalize room point direction
   = world.InfList ->
   world.House_distance_to_boundary normalize (world.mkHouse (room :: rest))
     point direction = Raise TypeError)
  /\ (world.ClosedRoom_distance_to_boundary normalize room point direction
      <> world.InfList ->
      exists m,
        world.House_distance_to_boundary normalize (world.mkHouse (room :: rest))
          point direction = Ok (world.NpFloat m)
        /\ In m (hit_distances normalize point direction (room :: rest))
        /\ forall x, In x (hit_distances normalize point direction (room :: rest)) ->
                     m <= x).
Proof.
  unfold world.House_distance_to_boundary.
  cbn [world.rooms world.House_distance_loop].
  rewrite hit_distances_cons.
  unfold world.ClosedRoom_distance_to_boundary.
  destruct (world.wall_distances normalize (world.walls room) point direction)
    as [| d ds] eqn:E.
  - split; [intros _; reflexivity | intros H; contradiction].
  - split; [discriminate |]. intros _. simpl bind.
    destruct (min_of_spec ds d) as [Hin Hle].
    destruct (house_loop_from_float normalize point direction rest (world.min_of d ds))
      as (m & Em & Hm & Hall).
    exists m. split; [exact Em |].
    assert (Hmin : m <= world.min_of d ds) by (apply Hall; left; reflexivity).
    split.
    + apply in_or_app.
      destruct Hm as [Hm | Hm]; [left; rewrite <- Hm; exact Hin | right; exact Hm].
    + intros x Hx. apply in_app_or in Hx. destruct Hx as [Hx | Hx].
      * specialize (Hle x Hx). lra.
      * apply Hall. right. exact Hx.
Qed.

(** ** C2 *)

Ltac decide_norm_test :=
  match goal with
  | |- context [Rltb (norm ?a) (norm ?b)] =>
      first [ rewrite (Rltb_true (norm a) (norm b))
                by (apply norm_lt_iff; cbn [fst snd]; unfold zeros; cbn [fst snd]; lra)
            | rewrite (Rltb_false (norm a) (norm b))
                by (apply sqrt_le_1_alt; cbn [fst snd]; unfold zeros; cbn [fst snd]; lra) ]
  end.

Ltac run :=
  cbv -[Rplus Rminus Rmult Ropp Rdiv Rinv IZR sqrt norm Rltb Rleb Rneqb].

Ltac evaluate :=
  run; repeat (first [decide_test | decide_norm_test]; run).

(** The construction of the evader succeeds. *)
Lemma evader_constructed :
  exists l, laser.Laser_init evader_config = Ok l
            /\ simulate.lasers scenario = [l].
Proof. eexists. split; reflexivity. Qed.

(** One step of the scenario, whatever the unit of time. *)
Lemma scenario_step (MILLISECOND : R) :
  fst (simulate.step MILLISECOND scenario) = Ok tt
  /\ simulate.current_step (snd (simulate.step MILLISECOND scenario)) = 1%Z
  /\ map cat.self_velocity
       (simulate.cats (snd (simulate.step MILLISECOND scenario))) = [(-2, -2)]
  /\ map laser.self_velocity
       (simulate.lasers (snd (simulate.step MILLISECOND scenario))) = [(-2, -2)].
Proof.
  unfold scenario, simulate.step.
  split; [evaluate; reflexivity |].
  split; [evaluate; reflexivity |].
  split; evaluate; repeat f_equal; lra.
Qed.

(** C2, refuted as stated.  With a millisecond of [1/1000], after one
    step of the scenario it is not the case that the seeker's velocity is
    [(-2, -2)] and the evader's velocity is [(2, 2)]. *)
Lemma evader_velocity_is_not_2_2 :
  ~ (map cat.self_velocity
       (simulate.cats (snd (simulate.step (1 / 1000) scenario))) = [(-2, -2)]
     /\ map laser.self_velocity
          (simulate.lasers (snd (simulate.step (1 / 1000) scenario))) = [(2, 2)]).
Proof.
  intros [_ H].
  destruct (scenario_step (1 / 1000)) as (_ & _ & _ & E).
  rewrite E in H. injection H as H _. lra.
Qed.

(** C2, as the code has it.  In the scenario, one [step()] returns
    normally, and afterwards the seeker's velocity is [(-2, -2)], the
    displacement to the evader, and the evader's velocity is [(-2, -2)]
    too: the negated displacement to the seeker, which is at [(2, 2)]. *)
Theorem one_step_velocities (MILLISECOND : R) :
  fst (simulate.step MILLISECOND scenario) = Ok tt
  /\ map cat.self_velocity
       (simulate.cats (snd (simulate.step MILLISECOND scenario))) = [(-2, -2)]
  /\ map laser.self_velocity
       (simulate.lasers (snd (simulate.step MILLISECOND scenario))) = [(-2, -2)].
Proof.
  destruct (scenario_step MILLISECOND) as (H1 & _ & H2 & H3). auto.
Qed.

(** ** C1 *)

(** A loop preserves what each round preserves. *)
Lemma for_each_preserves {A X : Type} (f : simulate.Simulator -> X)
  (body : A -> simulate.M unit) :
  (forall x s, f (snd (body x s)) = f s) ->
  forall l s, f (snd (simulate.for_each l body s)) = f s.
Proof.
  intros Hbody. induction l as [| x l IH]; intros s; [reflexivity |].
  simpl. unfold simulate.mbind. specialize (Hbody x s).
  destruct (body x s) as [[[] | e] s']; simpl in *.
  - rewrite IH. exact Hbody.
  - exact Hbody.
Qed.

Lemma reset_laser_keeps_arrays (j : nat) (s : simulate.Simulator) :
  simulate.arrays (snd (simulate.reset_laser j s)) = simulate.arrays s.
Proof.
  unfold simulate.reset_laser, simulate.mbind, simulate.get_laser, simulate.lift,
    simulate.put_laser, simulate.modify.
  destruct (nth_error (simulate.lasers s) j) as [l |]; [| reflexivity].
  destruct (laser.reset l); reflexivity.
Qed.

(** [Simulator.reset] raises as soon as the simulator holds a cat: only
    the step counter has been zeroed by then. *)
Lemma reset_with_a_cat (s : simulate.Simulator) :
  simulate.cats s <> [] ->
  simulate.reset s = (Raise AttributeError, simulate.set_current_step 0 s).
Proof.
  intros Hc. destruct s as [n h cs ls a sm d]. simpl in Hc.
  destruct cs as [| c cs]; [contradiction |]. reflexivity.
Qed.

(** [Simulator.reset] never writes a position array: a laser is handed
    back the array of its configuration, which is the one [step] has been
    updating in place. *)
Lemma reset_keeps_arrays (s : simulate.Simulator) :
  simulate.arrays (snd (simulate.reset s)) = simulate.arrays s.
Proof.
  destruct (simulate.cats s) as [| c cs] eqn:Ec.
  - unfold simulate.reset, simulate.mbind, simulate.modify, simulate.gets.
    simpl. rewrite Ec. simpl.
    rewrite (for_each_preserves simulate.arrays simulate.reset_laser
               reset_laser_keeps_arrays).
    reflexivity.
  - rewrite reset_with_a_cat by (rewrite Ec; discriminate). reflexivity.
Qed.

(** C1, on the code.  The scenario holds a seeker built from its
    configuration; [Simulator.reset()], called after one step, raises
    [AttributeError] (class [Cat] has no method [reset]) once the step
    counter is zeroed: no agent is reset, and the evader keeps the
    velocity [(-2, -2)] of the step instead of its configured one. *)
Theorem reset_raises_on_the_scenario (MILLISECOND : R) :
  fst (simulate.reset (snd (simulate.step MILLISECOND scenario)))
  = Raise AttributeError
  /\ simulate.current_step
       (snd (simulate.reset (snd (simulate.step MILLISECOND scenario)))) = 0%Z
  /\ map laser.self_velocity
       (simulate.lasers
          (snd (simulate.reset (snd (simulate.step MILLISECOND scenario)))))
     = [(-2, -2)]
  /\ map (fun l => laser.initial_velocity (laser.config l))
       (simulate.lasers
          (snd (simulate.reset (snd (simulate.step MILLISECOND scenario)))))
     = [(0, 0)].
Proof.
  destruct (scenario_step MILLISECOND) as (_ & _ & Hc & Hl).
  rewrite reset_with_a_cat.
  - split; [reflexivity |]. split; [reflexivity |].
    split; [exact Hl |].
    unfold scenario, simulate.step. evaluate. reflexivity.
  - intros E. rewrite E in Hc. discriminate.
Qed.

(** * Further properties of the code *)

(** ** Translations *)

Lemma walls_after_translations (ts : list vec) :
  forall room : world.ClosedRoom,
    world.walls (fold_left world.ClosedRoom_translate ts room)
    = map (fun wall => fold_left world.BoundarySegment_translate ts wall)
          (world.walls room).
Proof.
  induction ts as [| t ts IH]; intros room.
  - simpl. symmetry. apply map_id.
  - simpl fold_left. rewrite IH. simpl world.walls. apply map_map.
Qed.

Lemma endpoints_after_translations (ts : list vec) :
  forall wall : world.BoundarySegment,
    world.endpoints (fold_left world.BoundarySegment_translate ts wall)
    = (fold_left add ts (fst (world.endpoints wall)),
       fold_left add ts (snd (world.endpoints wall))).
Proof.
  induction ts as [| t ts IH]; intros wall.
  - simpl. destruct (world.endpoints wall). reflexivity.
  - simpl fold_left. rewrite IH. reflexivity.
Qed.

(** X4.  After a sequence of calls to [ClosedRoom.translate], every wall
    has been shifted by each translation in turn, whereas [origin], which
    [inside] tests against, is the last translation alone: the method
    overwrites the origin instead of shifting it. *)
Theorem translate_overwrites_origin (room : world.ClosedRoom) (ts : list vec) (t : vec) :
  world.origin (fold_left world.ClosedRoom_translate (ts ++ [t]) room) = t
  /\ world.walls (fold_left world.ClosedRoom_translate (ts ++ [t]) room)
     = map (fun wall => fold_left world.BoundarySegment_translate (ts ++ [t]) wall)
           (world.walls room).
Proof.
  split; [| apply walls_after_translations].
  rewrite fold_left_app. reflexivity.
Qed.

(** ** Distances inside a room *)

Lemma wall_distances_In (normalize : vec -> vec) (point direction : vec) (x : R)
  (walls : list world.BoundarySegment) :
  In x (world.wall_distances normalize walls point direction)
  <-> exists wall p rest,
        In wall walls
        /\ world.ray_intersection normalize wall point direction = p :: rest
        /\ x = norm (sub p point).
Proof.
  induction walls as [| wall walls IH]; simpl.
  - split; [intros [] | intros (w & p & rest & [] & _)].
  - destruct (world.ray_intersection normalize wall point direction) as [| p rest] eqn:E.
    + rewrite IH. split.
      * intros (w & q & r & Hw & Hq & Hx). exists w, q, r. auto.
      * intros (w & q & r & [<- | Hw] & Hq & Hx); [congruence |].
        exists w, q, r. auto.
    + simpl. rewrite IH. split.
      * intros [<- | (w & q & r & Hw & Hq & Hx)].
        -- exists wall, p, rest. auto.
        -- exists w, q, r. auto.
      * intros (w & q & r & [<- | Hw] & Hq & Hx).
        -- left. congruence.
        -- right. exists w, q, r. auto.
Qed.

(** X6.  [ClosedRoom.distance_to_boundary] returns the list [[inf]]
    exactly when the ray meets no wall, and otherwise the distance from
    the point to the nearest of the intersections found on the walls. *)
Theorem room_distance_is_nearest_hit (normalize : vec -> vec)
  (room : world.ClosedRoom) (point direction : vec) :
  match world.ClosedRoom_distance_to_boundary normalize room point direction with
  | world.InfList =>
      forall wall, In wall (world.walls room) ->
                   world.ray_intersection normalize wall point direction = []
  | world.Float64 d =>
      (exists wall p rest,
          In wall (world.walls room)
          /\ world.ray_intersection normalize wall point direction = p :: rest
          /\ d = norm (sub p point))
      /\ (forall wall p rest,
             In wall (world.walls room) ->
             world.ray_intersection normalize wall point direction = p :: rest ->
             d <= norm (sub p point))
  end.
Proof.
  unfold world.ClosedRoom_distance_to_boundary.
  destruct (world.wall_distances normalize (world.walls room) point direction)
    as [| d ds] eqn:E.
  - intros wall Hw.
    destruct (world.ray_intersection normalize wall point direction) as [| p rest] eqn:Ep;
      [reflexivity |].
    assert (H : In (norm (sub p point))
                   (world.wall_distances normalize (world.walls room) point direction))
      by (apply wall_distances_In; exists wall, p, rest; auto).
    rewrite E in H. destruct H.
  - destruct (min_of_spec ds d) as [Hin Hle]. rewrite <- E in Hin, Hle. split.
    + apply wall_distances_In, Hin.
    + intros wall p rest Hw Hp. apply Hle, wall_distances_In.
      exists wall, p, rest. auto.
Qed.

(** X7.  [House.inside] is the disjunction of the rooms' [inside]: a
    point is inside the house exactly when some room contains it, and no
    point is inside a house without rooms. *)
Theorem house_inside_is_any_room (house : world.House) (point : vec) :
  world.House_inside house point
  = existsb (fun room => world.ClosedRoom_inside room point) (world.rooms house).
Proof.
  unfold world.House_inside.
  assert (H : forall rooms acc,
             fold_left (fun is_inside room =>
                          if world.ClosedRoom_inside room point then true else is_inside)
                       rooms acc
             = existsb (fun room => world.ClosedRoom_inside room point) rooms || acc).
  { induction rooms as [| room rooms IH]; intros acc; simpl; [reflexivity |].
    rewrite IH. destruct (world.ClosedRoom_inside room point); simpl.
    - rewrite orb_true_r. reflexivity.
    - reflexivity. }
  rewrite H. apply orb_false_r.
Qed.

(** ** More on the controllers *)

Lemma never_returning {C I O : Type} (call : C -> I -> result (O * C)) (c : C) :
  (forall i, exists e, call c i = Raise e) ->
  forall inputs,
    control.after_all call c inputs = c /\ control.returned call c inputs = [].
Proof.
  intros H. induction inputs as [| i rest [IH1 IH2]]; [split; reflexivity |].
  destruct (H i) as [e E]. unfold control.after_all in *. simpl.
  unfold control.after at 2. rewrite E. auto.
Qed.

(** X9.  A random or ranging-oracle controller built with a buffer size
    of zero or less never returns a control signal: every invocation
    raises ([list.pop()] on the empty history raises [IndexError], unless
    the mode error comes first), and the history stays empty. *)
Theorem nonpositive_capacity_never_returns (capacity : Z) :
  (capacity <= 0)%Z ->
  (forall gain sample state,
      control.RandomController_call (control.RandomController_init gain capacity)
        sample state = Raise IndexError)
  /\ (forall gain inputs,
         control.returned control.random_call
           (control.RandomController_init gain capacity) inputs = []
         /\ control.random_history
              (control.after_all control.random_call
                 (control.RandomController_init gain capacity) inputs) = [])
  /\ (forall mode inputs,
         control.returned control.RangingOracleController_call
           (control.RangingOracleController_init mode capacity) inputs = []
         /\ control.history
              (control.after_all control.RangingOracleController_call
                 (control.RangingOracleController_init mode capacity) inputs) = []).
Proof.
  intros Hc.
  assert (Hr : forall gain sample state,
             control.RandomController_call (control.RandomController_init gain capacity)
               sample state = Raise IndexError).
  { intros gain sample state. unfold control.RandomController_call. simpl.
    rewrite record_empty_full by exact Hc. reflexivity. }
  split; [exact Hr |]. split.
  - intros gain inputs.
    destruct (never_returning control.random_call
                (control.RandomController_init gain capacity)) with (inputs := inputs)
      as [E1 E2].
    + intros [sample state]. eexists. apply Hr.
    + rewrite E1, E2. split; reflexivity.
  - intros mode inputs.
    destruct (never_returning control.RangingOracleController_call
                (control.RangingOracleController_init mode capacity)) with (inputs := inputs)
      as [E1 E2].
    + intros state. unfold control.RangingOracleController_call. simpl.
      destruct (control.select mode zeros (control.as_collection state)); simpl;
        [| eauto].
      rewrite record_empty_full by exact Hc. simpl. eauto.
    + rewrite E1, E2. split; reflexivity.
Qed.

Lemma nonpositive_capacity_never_returns_witness :
  (0 <= 0)%Z
  /\ control.RandomController_call (control.RandomController_init 1 0)
       (0, 0) (observe 1 0) = Raise IndexError.
Proof.
  assert (H : (0 <= 0)%Z) by lia.
  split; [exact H |].
  exact (proj1 (nonpositive_capacity_never_returns 0 H) 1 (0, 0) (observe 1 0)).
Defined.

(** X10.  A constant controller never fails and never records: after any
    sequence of invocations the object, its one-entry history included,
    is unchanged, and every invocation returned the constant. *)
Theorem constant_controller_is_stateless (c : control.ConstantController)
  (inputs : list control.observations) :
  control.after_all control.ConstantController_call c inputs = c
  /\ map control.payload (control.returned control.ConstantController_call c inputs)
     = repeat (control.constant c) (List.length inputs).
Proof.
  induction inputs as [| i rest [IH1 IH2]]; [split; reflexivity |].
  unfold control.after_all in *. simpl. split; [exact IH1 |].
  rewrite IH2. reflexivity.
Qed.

Lemma select_valid_returns (mode : string) :
  mode = "target"%string \/ mode = "avoid"%string ->
  forall l control, exists v, control.select mode control l = Ok v.
Proof.
  intros Hm l control.
  destruct (select_valid mode Hm l control) as [[E _] | (l1 & o & l2 & _ & _ & _ & _ & E)];
    eauto.
Qed.

Lemma valid_mode_never_unimplemented (c : control.RangingOracleController) :
  control.mode c = "target"%string \/ control.mode c = "avoid"%string ->
  forall state,
    control.RangingOracleController_call c state <> Raise NotImplementedError.
Proof.
  intros Hm state H. unfold control.RangingOracleController_call in H.
  destruct (select_valid_returns (control.mode c) Hm
              (control.as_collection state) zeros) as [v Ev].
  rewrite Ev in H. simpl in H.
  destruct (record_cases (control.buffer_size c) (control.history c) v)
    as [[h Eh] | Eh]; rewrite Eh in H; discriminate.
Qed.

(** X11.  The [mode] setter refuses, by [AssertionError], every value
    other than "target" and "avoid", and changes nothing else than the
    mode; a controller whose mode went through the setter never raises
    [NotImplementedError] when called. *)
Theorem mode_setter_validates (c : control.RangingOracleController) (new_mode : string) :
  (set_mode c new_mode = AssertionError
   <-> new_mode <> "target"%string /\ new_mode <> "avoid"%string)
  /\ (forall c', set_mode c new_mode = Holds c' ->
        control.mode c' = new_mode
        /\ control.buffer_size c' = control.buffer_size c
        /\ control.history c' = control.history c
        /\ forall state,
             control.RangingOracleController_call c' state <> Raise NotImplementedError).
Proof.
  unfold set_mode. simpl.
  destruct (String.eqb_spec new_mode "target") as [Et | Et];
    [| destruct (String.eqb_spec new_mode "avoid") as [Ea | Ea]]; simpl.
  - split; [split; [discriminate | intros [H _]; contradiction] |].
    intros c' E. injection E as <-. simpl. repeat split; auto.
    apply valid_mode_never_unimplemented. left. exact Et.
  - split; [split; [discriminate | intros [_ H]; contradiction] |].
    intros c' E. injection E as <-. simpl. repeat split; auto.
    apply valid_mode_never_unimplemented. right. exact Ea.
  - split; [split; [auto | reflexivity] | discriminate].
Qed.

(** X12.  When the draw of [uniform(-1, 1)] has both components in
    [[-1, 1]], both components of the control a random controller returns
    are bounded, in absolute value, by the absolute value of the gain. *)
Theorem random_control_is_bounded (c : control.RandomController) (sample : vec)
  (state : control.observations) (sig : control.ControlSignal)
  (c' : control.RandomController) :
  -1 <= fst sample <= 1 -> -1 <= snd sample <= 1 ->
  control.RandomController_call c sample state = Ok (sig, c') ->
  Rabs (fst (control.payload sig)) <= Rabs (control.gain c)
  /\ Rabs (snd (control.payload sig)) <= Rabs (control.gain c).
Proof.
  intros Hx Hy E. unfold control.RandomController_call in E.
  destruct (control.record _ _ _); simpl in E; [| discriminate].
  injection E as <- _. simpl.
  assert (B : forall g x, -1 <= x <= 1 -> Rabs (g * x) <= Rabs g).
  { intros g x Hb. rewrite Rabs_mult.
    assert (Rabs x <= 1) by (apply Rabs_le; lra).
    pose proof (Rabs_pos g). nra. }
  split; apply B; assumption.
Qed.

Lemma random_control_is_bounded_witness :
  -1 <= fst (1 / 2, -1) <= 1 /\ -1 <= snd (1 / 2, -1) <= 1
  /\ Rabs (fst (scale 3 (1 / 2, -1))) <= Rabs 3.
Proof.
  assert (Hx : -1 <= fst (1 / 2, -1) <= 1) by (simpl; lra).
  assert (Hy : -1 <= snd (1 / 2, -1) <= 1) by (simpl; lra).
  split; [exact Hx |]. split; [exact Hy |].
  exact (proj1 (random_control_is_bounded
                  (control.RandomController_init 3 10) (1 / 2, -1) (observe 0 0)
                  _ _ Hx Hy eq_refl)).
Defined.

(** ** What a step preserves *)

Section Preservation.

Context {X : Type} (f : simulate.Simulator -> X).

Lemma preserves_ret {A : Type} (a : A) : preserves f (simulate.ret a).
Proof. intros s. reflexivity. Qed.

Lemma preserves_raise {A : Type} (e : exn) : preserves f (@simulate.raise A e).
Proof. intros s. reflexivity. Qed.

Lemma preserves_lift {A : Type} (r : result A) : preserves f (simulate.lift r).
Proof. intros s. reflexivity. Qed.

Lemma preserves_gets {A : Type} (g : simulate.Simulator -> A) :
  preserves f (simulate.gets g).
Proof. intros s. reflexivity. Qed.

Lemma preserves_read {A : Type} (g : simulate.Simulator -> result A) :
  preserves f (fun s => (g s, s)).
Proof. intros s. reflexivity. Qed.

Lemma preserves_modify (g : simulate.Simulator -> simulate.Simulator) :
  (forall s, f (g s) = f s) -> preserves f (simulate.modify g).
Proof. intros H s. apply H. Qed.

Lemma preserves_bind {A B : Type} (m : simulate.M A) (k : A -> simulate.M B) :
  preserves f m -> (forall a, preserves f (k a)) -> preserves f (simulate.mbind m k).
Proof.
  intros Hm Hk s. unfold simulate.mbind. specialize (Hm s).
  destruct (m s) as [[a | e] s']; simpl in *.
  - rewrite Hk. exact Hm.
  - exact Hm.
Qed.

Lemma preserves_for_each {A : Type} (body : A -> simulate.M unit) (l : list A) :
  (forall x, preserves f (body x)) -> preserves f (simulate.for_each l body).
Proof.
  intros Hb. induction l as [| x l IH]; simpl.
  - apply preserves_ret.
  - apply preserves_bind; [apply Hb | intros _; exact IH].
Qed.

Lemma preserves_get_cat (i : nat) : preserves f (simulate.get_cat i).
Proof.
  intros s. unfold simulate.get_cat. destruct (nth_error _ i); reflexivity.
Qed.

Lemma preserves_get_laser (j : nat) : preserves f (simulate.get_laser j).
Proof.
  intros s. unfold simulate.get_laser. destruct (nth_error _ j); reflexivity.
Qed.

End Preservation.

Lemma set_nth_same_image {A B : Type} (g : A -> B) (l : list A) :
  forall (i : nat) (x y : A),
    nth_error l i = Some x -> g y = g x ->
    map g (simulate.set_nth i y l) = map g l.
Proof.
  induction l as [| z l IH]; intros i x y Hi Hg.
  - destruct i; discriminate.
  - destruct i as [| i]; simpl in *.
    + injection Hi as ->. rewrite Hg. reflexivity.
    + f_equal. eapply IH; eassumption.
Qed.

Lemma set_nth_out_of_range {A : Type} (l : list A) :
  forall (i : nat) (y : A), nth_error l i = None -> simulate.set_nth i y l = l.
Proof.
  induction l as [| z l IH]; intros i y Hi; [destruct i; reflexivity |].
  destruct i as [| i]; simpl in *; [discriminate |].
  f_equal. apply IH, Hi.
Qed.

(** Replacing a cat by one of the same frame keeps the frame and the
    step counter. *)
Lemma put_cat_static (i : nat) (c c' : cat.Cat) (s : simulate.Simulator) :
  nth_error (simulate.cats s) i = Some c -> cat_frame c' = cat_frame c ->
  frame (snd (simulate.put_cat i c' s)) = frame s
  /\ simulate.current_step (snd (simulate.put_cat i c' s)) = simulate.current_step s.
Proof.
  intros Hi Hf. unfold frame, simulate.put_cat, simulate.modify; simpl.
  rewrite (set_nth_same_image cat_frame _ i c c' Hi Hf). auto.
Qed.

Lemma put_laser_static (j : nat) (l l' : laser.Laser) (s : simulate.Simulator) :
  nth_error (simulate.lasers s) j = Some l -> laser_frame l' = laser_frame l ->
  frame (snd (simulate.put_laser j l' s)) = frame s
  /\ simulate.current_step (snd (simulate.put_laser j l' s)) = simulate.current_step s.
Proof.
  intros Hj Hf. unfold frame, simulate.put_laser, simulate.modify; simpl.
  rewrite (set_nth_same_image laser_frame _ j l l' Hj Hf). auto.
Qed.

(** A controller call only consumes random draws. *)
Lemma call_controller_effect (k : Controller) (state : control.observations)
  (s : simulate.Simulator) :
  snd (simulate.call_controller k state s) = s
  \/ snd (simulate.call_controller k state s)
     = simulate.set_drawn (S (simulate.drawn s)) s.
Proof.
  destruct k as [k | k | k];
    unfold simulate.call_controller, simulate.mbind, simulate.lift, simulate.gets,
      simulate.modify, simulate.ret; simpl.
  - left. reflexivity.
  - right. destruct (control.RandomController_call _ _ _) as [[sig k'] |]; reflexivity.
  - left. destruct (control.RangingOracleController_call _ _) as [[sig k'] |]; reflexivity.
Qed.

Lemma static_put_cat (i : nat) (c c' : cat.Cat) (s : simulate.Simulator) :
  nth_error (simulate.cats s) i = Some c -> cat_frame c' = cat_frame c ->
  static (snd (simulate.put_cat i c' s)) = static s.
Proof.
  intros Hi Hf. destruct (put_cat_static i c c' s Hi Hf) as [E1 E2].
  unfold static. rewrite E1, E2. reflexivity.
Qed.

Lemma static_put_laser (j : nat) (l l' : laser.Laser) (s : simulate.Simulator) :
  nth_error (simulate.lasers s) j = Some l -> laser_frame l' = laser_frame l ->
  static (snd (simulate.put_laser j l' s)) = static s.
Proof.
  intros Hj Hf. destruct (put_laser_static j l l' s Hj Hf) as [E1 E2].
  unfold static. rewrite E1, E2. reflexivity.
Qed.

Lemma cat_set_target_frame (c c' : cat.Cat) (t : mobile.MobileObject) :
  cat.set_target c t = Ok c' -> cat_frame c' = cat_frame c.
Proof.
  unfold cat.set_target. destruct (cat.self_sensor c); [| discriminate].
  intros E. injection E as <-. reflexivity.
Qed.

Lemma laser_set_target_frame (l l' : laser.Laser) (t : mobile.MobileObject) :
  laser.set_target l t = Ok l' -> laser_frame l' = laser_frame l.
Proof.
  unfold laser.set_target. destruct (laser.self_sensor l); [| discriminate].
  intros E. injection E as <-. reflexivity.
Qed.

Section StaticStep.

Variable MILLISECOND : R.

Lemma static_move_cat (i : nat) : preserves static (simulate.move_cat MILLISECOND i).
Proof.
  unfold simulate.move_cat.
  apply preserves_bind; [apply preserves_get_cat | intros c].
  apply preserves_bind; [apply preserves_modify; reflexivity | intros _].
  apply preserves_bind; [apply preserves_gets | intros inside].
  destruct (negb inside); [apply preserves_raise | apply preserves_ret].
Qed.

Lemma static_move_laser (j : nat) : preserves static (simulate.move_laser MILLISECOND j).
Proof.
  unfold simulate.move_laser.
  apply preserves_bind; [apply preserves_get_laser | intros l].
  apply preserves_bind; [apply preserves_modify; reflexivity | intros _].
  apply preserves_bind; [apply preserves_gets | intros inside].
  destruct (negb inside); [apply preserves_raise | apply preserves_ret].
Qed.

Lemma static_cat_targets (distances : list (list R)) (i : nat) :
  preserves static (simulate.cat_targets distances i).
Proof.
  intros s. unfold simulate.cat_targets, simulate.mbind, simulate.get_cat,
    simulate.get_laser, simulate.lift.
  destruct (nth_error (simulate.cats s) i) as [c |] eqn:Hi; [| reflexivity].
  destruct (simulate.argmin _) as [nearest |]; [| reflexivity].
  destruct (nth_error (simulate.lasers s) nearest); [| reflexivity].
  destruct (cat.set_target c _) as [c' |] eqn:Et; [| reflexivity].
  apply (static_put_cat i c c' s Hi), (cat_set_target_frame _ _ _ Et).
Qed.

Lemma static_laser_targets (distances : list (list R)) (j : nat) :
  preserves static (simulate.laser_targets distances j).
Proof.
  intros s. unfold simulate.laser_targets, simulate.mbind, simulate.get_cat,
    simulate.get_laser, simulate.lift.
  destruct (nth_error (simulate.lasers s) j) as [l |] eqn:Hj; [| reflexivity].
  destruct (simulate.argmin _) as [nearest |]; [| reflexivity].
  destruct (nth_error (simulate.cats s) nearest); [| reflexivity].
  destruct (laser.set_target l _) as [l' |] eqn:Et; [| reflexivity].
  apply (static_put_laser j l l' s Hj), (laser_set_target_frame _ _ _ Et).
Qed.

Lemma static_cat_controls (i : nat) : preserves static (simulate.cat_controls i).
Proof.
  intros s. unfold simulate.cat_controls, simulate.mbind, simulate.get_cat,
    simulate.lift.
  destruct (nth_error (simulate.cats s) i) as [c |] eqn:Hi; [| reflexivity].
  destruct (cat.self_sensor c) as [oracle |]; [| reflexivity].
  destruct (sensors.RangingOracle_read _ _ _) as [observation |]; [| reflexivity].
  pose proof (call_controller_effect (cat.self_controller c)
                (control.Single observation) s) as He.
  destruct (simulate.call_controller _ _ s) as [[r | e] s'']; simpl in He.
  - destruct He as [-> | ->].
    + apply (static_put_cat i c); [exact Hi | reflexivity].
    + rewrite (static_put_cat i c _ (simulate.set_drawn (S (simulate.drawn s)) s));
        [reflexivity | exact Hi | reflexivity].
  - destruct He as [-> | ->]; reflexivity.
Qed.

Lemma static_laser_controls (j : nat) : preserves static (simulate.laser_controls j).
Proof.
  intros s. unfold simulate.laser_controls, simulate.mbind, simulate.get_laser,
    simulate.lift.
  destruct (nth_error (simulate.lasers s) j) as [l |] eqn:Hj; [| reflexivity].
  destruct (laser.self_sensor l) as [oracle |]; [| reflexivity].
  destruct (sensors.RangingOracle_read _ _ _) as [observation |]; [| reflexivity].
  destruct (laser.self_controller l) as [k |]; [| reflexivity].
  pose proof (call_controller_effect k (control.Single observation) s) as He.
  destruct (simulate.call_controller _ _ s) as [[r | e] s'']; simpl in He.
  - destruct He as [-> | ->].
    + apply (static_put_laser j l); [exact Hj | reflexivity].
    + rewrite (static_put_laser j l _ (simulate.set_drawn (S (simulate.drawn s)) s));
        [reflexivity | exact Hj | reflexivity].
  - destruct He as [-> | ->]; reflexivity.
Qed.

(** A computation that ends by advancing the step counter by one when it
    returns, and leaves it when it raises; the frame is kept either way. *)
Lemma step_outcome (s : simulate.Simulator) :
  match simulate.step MILLISECOND s with
  | (Ok _, s') =>
      simulate.current_step s' = (simulate.current_step s + 1)%Z
      /\ frame s' = frame s
  | (Raise _, s') =>
      simulate.current_step s' = simulate.current_step s /\ frame s' = frame s
  end.
Proof.
  assert (Hbind : forall (A : Type) (m : simulate.M A) (k : A -> simulate.M unit),
             preserves static m ->
             (forall a s0,
                 match k a s0 with
                 | (Ok _, s') =>
                     simulate.current_step s' = (simulate.current_step s0 + 1)%Z
                     /\ frame s' = frame s0
                 | (Raise _, s') =>
                     simulate.current_step s' = simulate.current_step s0
                     /\ frame s' = frame s0
                 end) ->
             forall s0,
               match simulate.mbind m k s0 with
               | (Ok _, s') =>
                   simulate.current_step s' = (simulate.current_step s0 + 1)%Z
                   /\ frame s' = frame s0
               | (Raise _, s') =>
                   simulate.current_step s' = simulate.current_step s0
                   /\ frame s' = frame s0
               end).
  { intros A m k Hm Hk s0. unfold simulate.mbind. specialize (Hm s0).
    destruct (m s0) as [[a | e] s1]; simpl in Hm;
      pose proof (f_equal fst Hm) as Hc; pose proof (f_equal snd Hm) as Hf;
      simpl in Hc, Hf.
    - specialize (Hk a s1). destruct (k a s1) as [[[] | e] s2];
        destruct Hk as [Hk1 Hk2]; split; congruence.
    - split; assumption. }
  revert s. unfold simulate.step.
  apply Hbind; [apply preserves_gets | intros n_cats].
  apply Hbind; [apply preserves_gets | intros n_lasers].
  apply Hbind; [apply preserves_for_each, static_move_cat | intros _].
  apply Hbind; [apply preserves_for_each, static_move_laser | intros _].
  apply Hbind; [apply preserves_gets | intros distances].
  apply Hbind; [apply preserves_for_each, static_cat_targets | intros _].
  apply Hbind; [apply preserves_for_each, static_laser_targets | intros _].
  apply Hbind; [apply preserves_for_each, static_cat_controls | intros _].
  apply Hbind; [apply preserves_for_each, static_laser_controls | intros _].
  intros s. simpl. split; reflexivity.
Qed.

End StaticStep.

(** X13.  Whatever happens in a [step()], the house, the agents' names,
    maximal speeds and position arrays (as objects), and the names,
    maximal speeds, initial position arrays and initial velocities of
    their configurations stay as they were; the step counter advances by
    exactly one when the step returns and does not move when the step
    raises. *)
Theorem step_counts_one (MILLISECOND : R) (s : simulate.Simulator) :
  frame (snd (simulate.step MILLISECOND s)) = frame s
  /\ (fst (simulate.step MILLISECOND s) = Ok tt ->
      simulate.current_step (snd (simulate.step MILLISECOND s))
      = (simulate.current_step s + 1)%Z)
  /\ (forall e, fst (simulate.step MILLISECOND s) = Raise e ->
                simulate.current_step (snd (simulate.step MILLISECOND s))
                = simulate.current_step s).
Proof.
  pose proof (step_outcome MILLISECOND s) as H.
  destruct (simulate.step MILLISECOND s) as [[[] | e] s']; simpl;
    destruct H as [Hc Hf]; repeat split; auto; discriminate.
Qed.

Lemma simulate_outcome (MILLISECOND : R) (n : nat) :
  forall s,
    match simulate.simulate MILLISECOND n s with
    | (Ok _, s') =>
        simulate.current_step s' = (simulate.current_step s + Z.of_nat n)%Z
        /\ frame s' = frame s
    | (Raise _, s') =>
        (simulate.current_step s <= simulate.current_step s'
         < simulate.current_step s + Z.of_nat n)%Z
        /\ frame s' = frame s
    end.
Proof.
  induction n as [| n IH]; intros s.
  - simpl. split; [lia | reflexivity].
  - cbn [simulate.simulate]. unfold simulate.mbind.
    pose proof (step_outcome MILLISECOND s) as Hs.
    destruct (simulate.step MILLISECOND s) as [[[] | e] s1]; destruct Hs as [Hc Hf].
    + specialize (IH s1).
      destruct (simulate.simulate MILLISECOND n s1) as [[[] | e] s2];
        destruct IH as [Hc' Hf']; split; try congruence; lia.
    + split; [lia | exact Hf].
Qed.

(** X14.  [simulate(num_steps)] that returns has advanced the step
    counter by [num_steps], so that [current_time] is the duration of a
    time step times the former counter plus [num_steps]; when it raises,
    the counter holds the number of steps that were completed, fewer than
    [num_steps]. *)
Theorem simulate_counts_steps (MILLISECOND : R) (num_steps : nat)
  (s : simulate.Simulator) :
  (fst (simulate.simulate MILLISECOND num_steps s) = Ok tt ->
   simulate.current_step (snd (simulate.simulate MILLISECOND num_steps s))
   = (simulate.current_step s + Z.of_nat num_steps)%Z
   /\ current_time MILLISECOND (snd (simulate.simulate MILLISECOND num_steps s))
      = simulate.timestep_duration MILLISECOND
        * IZR (simulate.current_step s + Z.of_nat num_steps))
  /\ (forall e, fst (simulate.simulate MILLISECOND num_steps s) = Raise e ->
        (simulate.current_step s
         <= simulate.current_step (snd (simulate.simulate MILLISECOND num_steps s))
         < simulate.current_step s + Z.of_nat num_steps)%Z).
Proof.
  pose proof (simulate_outcome MILLISECOND num_steps s) as H.
  destruct (simulate.simulate MILLISECOND num_steps s) as [[[] | e] s']; simpl;
    destruct H as [Hc Hf]; split; try discriminate.
  - intros _. split; [exact Hc |].
    unfold current_time. rewrite Hc. reflexivity.
  - intros e' _. exact Hc.
Qed.

Lemma mbind_assoc {A B C : Type} (m : simulate.M A) (k : A -> simulate.M B)
  (k' : B -> simulate.M C) (s : simulate.Simulator) :
  simulate.mbind (simulate.mbind m k) k' s
  = simulate.mbind m (fun a => simulate.mbind (k a) k') s.
Proof.
  unfold simulate.mbind. destruct (m s) as [[a | e] s']; reflexivity.
Qed.

Lemma mbind_ext {A B : Type} (m : simulate.M A) (k k' : A -> simulate.M B)
  (s : simulate.Simulator) :
  (forall a s', k a s' = k' a s') -> simulate.mbind m k s = simulate.mbind m k' s.
Proof.
  intros H. unfold simulate.mbind. destruct (m s) as [[a | e] s']; [apply H | reflexivity].
Qed.

(** X15.  Simulating [m + n] steps is simulating [m] steps and then, if
    that returned, [n] more: the outcome and the final state are the
    same. *)
Theorem simulate_splits (MILLISECOND : R) (m n : nat) (s : simulate.Simulator) :
  simulate.simulate MILLISECOND (m + n) s
  = simulate.mbind (simulate.simulate MILLISECOND m)
      (fun _ => simulate.simulate MILLISECOND n) s.
Proof.
  revert s. induction m as [| m IH]; intros s.
  - reflexivity.
  - cbn [Nat.add simulate.simulate]. rewrite mbind_assoc.
    apply mbind_ext. intros _ s1. apply IH.
Qed.

(** ** The movement phase *)

Section Movement.

Variable MILLISECOND : R.

Lemma agents_move_cat (i : nat) : preserves agents (simulate.move_cat MILLISECOND i).
Proof.
  unfold simulate.move_cat.
  apply preserves_bind; [apply preserves_get_cat | intros c].
  apply preserves_bind; [apply preserves_modify; reflexivity | intros _].
  apply preserves_bind; [apply preserves_gets | intros inside].
  destruct (negb inside); [apply preserves_raise | apply preserves_ret].
Qed.

Lemma agents_move_laser (j : nat) : preserves agents (simulate.move_laser MILLISECOND j).
Proof.
  unfold simulate.move_laser.
  apply preserves_bind; [apply preserves_get_laser | intros l].
  apply preserves_bind; [apply preserves_modify; reflexivity | intros _].
  apply preserves_bind; [apply preserves_gets | intros inside].
  destruct (negb inside); [apply preserves_raise | apply preserves_ret].
Qed.

Lemma move_cat_raises (i : nat) (s : simulate.Simulator) (e : exn) :
  (i < List.length (simulate.cats s))%nat ->
  fst (simulate.move_cat MILLISECOND i s) = Raise e -> e = ValueError.
Proof.
  intros Hi. unfold simulate.move_cat, simulate.mbind, simulate.get_cat.
  destruct (nth_error (simulate.cats s) i) eqn:E.
  - simpl. destruct (negb _); simpl; intros H; [congruence | discriminate].
  - apply nth_error_None in E. lia.
Qed.

Lemma move_laser_raises (j : nat) (s : simulate.Simulator) (e : exn) :
  (j < List.length (simulate.lasers s))%nat ->
  fst (simulate.move_laser MILLISECOND j s) = Raise e -> e = ValueError.
Proof.
  intros Hj. unfold simulate.move_laser, simulate.mbind, simulate.get_laser.
  destruct (nth_error (simulate.lasers s) j) eqn:E.
  - simpl. destruct (negb _); simpl; intros H; [congruence | discriminate].
  - apply nth_error_None in E. lia.
Qed.

(** A loop whose rounds keep the agents and can only raise [ValueError]
    on valid indices. *)
Lemma for_each_only_value_error (body : nat -> simulate.M unit)
  (bound : simulate.Simulator -> nat) :
  (forall i, preserves agents (body i)) ->
  (forall s s', agents s' = agents s -> bound s' = bound s) ->
  (forall i s e, (i < bound s)%nat -> fst (body i s) = Raise e -> e = ValueError) ->
  forall l s,
    (forall i, In i l -> (i < bound s)%nat) ->
    agents (snd (simulate.for_each l body s)) = agents s
    /\ forall e, fst (simulate.for_each l body s) = Raise e -> e = ValueError.
Proof.
  intros Hp Hb Hr. induction l as [| i l IH]; intros s Hl.
  - simpl. split; [reflexivity | discriminate].
  - simpl. unfold simulate.mbind.
    pose proof (Hp i s) as Hi. pose proof (Hr i s) as Hri.
    destruct (body i s) as [[[] | e] s1]; simpl in *.
    + destruct (IH s1) as [Ha He].
      { intros k Hk. rewrite (Hb s s1 Hi). apply Hl. right. exact Hk. }
      split; [congruence | exact He].
    + split; [exact Hi |]. intros e' E. injection E as <-.
      apply Hri; [apply Hl; left; reflexivity | reflexivity].
Qed.

Lemma move_cats_outcome (s : simulate.Simulator) :
  agents (snd (simulate.for_each (seq 0 (List.length (simulate.cats s)))
                 (simulate.move_cat MILLISECOND) s)) = agents s
  /\ forall e,
       fst (simulate.for_each (seq 0 (List.length (simulate.cats s)))
              (simulate.move_cat MILLISECOND) s) = Raise e -> e = ValueError.
Proof.
  apply (for_each_only_value_error (simulate.move_cat MILLISECOND)
           (fun s => List.length (simulate.cats s))).
  - apply agents_move_cat.
  - intros s0 s1 H. unfold agents in H. congruence.
  - apply move_cat_raises.
  - intros i Hi. apply in_seq in Hi. lia.
Qed.

Lemma move_lasers_outcome (s : simulate.Simulator) :
  agents (snd (simulate.for_each (seq 0 (List.length (simulate.lasers s)))
                 (simulate.move_laser MILLISECOND) s)) = agents s
  /\ forall e,
       fst (simulate.for_each (seq 0 (List.length (simulate.lasers s)))
              (simulate.move_laser MILLISECOND) s) = Raise e -> e = ValueError.
Proof.
  apply (for_each_only_value_error (simulate.move_laser MILLISECOND)
           (fun s => List.length (simulate.lasers s))).
  - apply agents_move_laser.
  - intros s0 s1 H. unfold agents in H. congruence.
  - apply move_laser_raises.
  - intros i Hi. apply in_seq in Hi. lia.
Qed.

End Movement.

(** The phases of [step], in order. *)
Lemma step_phases (MILLISECOND : R) (s : simulate.Simulator) :
  simulate.step MILLISECOND s
  = match simulate.for_each (seq 0 (List.length (simulate.cats s)))
            (simulate.move_cat MILLISECOND) s with
    | (Raise e, s1) => (Raise e, s1)
    | (Ok _, s1) =>
    match simulate.for_each (seq 0 (List.length (simulate.lasers s)))
            (simulate.move_laser MILLISECOND) s1 with
    | (Raise e, s2) => (Raise e, s2)
    | (Ok _, s2) =>
    match simulate.for_each (seq 0 (List.length (simulate.cats s)))
            (simulate.cat_targets (simulate.distance_matrix s2)) s2 with
    | (Raise e, s3) => (Raise e, s3)
    | (Ok _, s3) =>
    match simulate.for_each (seq 0 (List.length (simulate.lasers s)))
            (simulate.laser_targets (simulate.distance_matrix s2)) s3 with
    | (Raise e, s4) => (Raise e, s4)
    | (Ok _, s4) =>
    match simulate.for_each (seq 0 (List.length (simulate.cats s)))
            simulate.cat_controls s4 with
    | (Raise e, s5) => (Raise e, s5)
    | (Ok _, s5) =>
    match simulate.for_each (seq 0 (List.length (simulate.lasers s)))
            simulate.laser_controls s5 with
    | (Raise e, s6) => (Raise e, s6)
    | (Ok _, s6) =>
        (Ok tt, simulate.set_current_step (simulate.current_step s6 + 1)%Z s6)
    end end end end end end.
Proof.
  unfold simulate.step, simulate.mbind, simulate.gets, simulate.modify.
  destruct (simulate.for_each _ (simulate.move_cat MILLISECOND) s) as [[[] | e] s1];
    [| reflexivity].
  destruct (simulate.for_each _ (simulate.move_laser MILLISECOND) s1) as [[[] | e] s2];
    [| reflexivity].
  destruct (simulate.for_each _ (simulate.cat_targets _) s2) as [[[] | e] s3];
    [| reflexivity].
  destruct (simulate.for_each _ (simulate.laser_targets _) s3) as [[[] | e] s4];
    [| reflexivity].
  destruct (simulate.for_each _ simulate.cat_controls s4) as [[[] | e] s5];
    [| reflexivity].
  destruct (simulate.for_each _ simulate.laser_controls s5) as [[[] | e] s6];
    reflexivity.
Qed.

(** X16.  A simulator that holds cats but no laser, or lasers but no
    cat, cannot complete a step: once the agents are moved (if none left
    the house, which raises [ValueError] too), the nearest-target search
    takes [np.argmin] of an empty sequence, a [ValueError]. *)
Theorem step_needs_both_populations (MILLISECOND : R) (s : simulate.Simulator) :
  (simulate.cats s <> [] /\ simulate.lasers s = [])
  \/ (simulate.cats s = [] /\ simulate.lasers s <> []) ->
  fst (simulate.step MILLISECOND s) = Raise ValueError.
Proof.
  intros H. rewrite step_phases.
  destruct (move_cats_outcome MILLISECOND s) as [Ha He].
  destruct (simulate.for_each _ (simulate.move_cat MILLISECOND) s) as [[[] | e] s1];
    [| simpl; f_equal; apply He; reflexivity].
  simpl in Ha. unfold agents in Ha. injection Ha as Hc1 Hl1.
  destruct (move_lasers_outcome MILLISECOND s1) as [Ha2 He2].
  rewrite Hl1 in Ha2, He2.
  destruct (simulate.for_each _ (simulate.move_laser MILLISECOND) s1) as [[[] | e] s2];
    [| simpl; f_equal; apply He2; reflexivity].
  simpl in Ha2. unfold agents in Ha2. injection Ha2 as Hc2 Hl2.
  destruct H as [[Hc Hl] | [Hc Hl]].
  - destruct (simulate.cats s) as [| c cs] eqn:Ec; [contradiction |].
    cbn [List.length seq simulate.for_each].
    unfold simulate.mbind at 1, simulate.cat_targets at 1, simulate.mbind at 1,
      simulate.get_cat.
    rewrite Hc2, Hc1. cbn [nth_error].
    unfold simulate.mbind at 1, simulate.lift, simulate.distance_matrix, simulate.row.
    rewrite Hc2, Hc1, Hl2, Hl1, Hl. reflexivity.
  - rewrite Hc. cbn [List.length seq simulate.for_each simulate.ret].
    destruct (simulate.lasers s) as [| l ls] eqn:El; [contradiction |].
    cbn [List.length seq simulate.for_each].
    unfold simulate.mbind at 1, simulate.laser_targets at 1, simulate.mbind at 1,
      simulate.get_laser.
    rewrite Hl2, Hl1. cbn [nth_error].
    unfold simulate.mbind at 1, simulate.lift, simulate.distance_matrix, simulate.column.
    rewrite Hc2, Hc1, Hc. reflexivity.
Qed.

Lemma step_needs_both_populations_witness :
  ((simulate.cats
      (simulate.Simulator_init
         (world.House_init (world.OneRoom (world.ClosedRoom_init 5 5)))
         [cat.Cat_init seeker_config] [] scenario_arrays (fun _ => zeros)) <> []
    /\ simulate.lasers
         (simulate.Simulator_init
            (world.House_init (world.OneRoom (world.ClosedRoom_init 5 5)))
            [cat.Cat_init seeker_config] [] scenario_arrays (fun _ => zeros)) = [])
   \/ (simulate.cats
         (simulate.Simulator_init
            (world.House_init (world.OneRoom (world.ClosedRoom_init 5 5)))
            [cat.Cat_init seeker_config] [] scenario_arrays (fun _ => zeros)) = []
       /\ simulate.lasers
            (simulate.Simulator_init
               (world.House_init (world.OneRoom (world.ClosedRoom_init 5 5)))
               [cat.Cat_init seeker_config] [] scenario_arrays (fun _ => zeros)) <> []))
  /\ fst (simulate.step (1 / 1000)
            (simulate.Simulator_init
               (world.House_init (world.OneRoom (world.ClosedRoom_init 5 5)))
               [cat.Cat_init seeker_config] [] scenario_arrays (fun _ => zeros)))
     = Raise ValueError.
Proof.
  assert (H : (simulate.cats
      (simulate.Simulator_init
         (world.House_init (world.OneRoom (world.ClosedRoom_init 5 5)))
         [cat.Cat_init seeker_config] [] scenario_arrays (fun _ => zeros)) <> []
    /\ simulate.lasers
         (simulate.Simulator_init
            (world.House_init (world.OneRoom (world.ClosedRoom_init 5 5)))
            [cat.Cat_init seeker_config] [] scenario_arrays (fun _ => zeros)) = [])
   \/ (simulate.cats
         (simulate.Simulator_init
            (world.House_init (world.OneRoom (world.ClosedRoom_init 5 5)))
            [cat.Cat_init seeker_config] [] scenario_arrays (fun _ => zeros)) = []
       /\ simulate.lasers
            (simulate.Simulator_init
               (world.House_init (world.OneRoom (world.ClosedRoom_init 5 5)))
               [cat.Cat_init seeker_config] [] scenario_arrays (fun _ => zeros)) <> []))
    by (left; split; [discriminate | reflexivity]).
  split; [exact H |].
  exact (step_needs_both_populations (1 / 1000) _ H).
Defined.

Lemma move_cat_outside (MILLISECOND : R) (s : simulate.Simulator) (i : nat)
  (c : cat.Cat) :
  nth_error (simulate.cats s) i = Some c ->
  world.House_inside (simulate.house s)
    (add (simulate.arrays s (cat.self_position c))
         (scale (simulate.timestep_duration MILLISECOND) (cat.self_velocity c)))
  = false ->
  simulate.move_cat MILLISECOND i s
  = (Raise ValueError,
     snd (simulate.iadd (cat.self_position c)
            (scale (simulate.timestep_duration MILLISECOND) (cat.self_velocity c)) s)).
Proof.
  intros Hi Hout.
  unfold simulate.move_cat, simulate.mbind, simulate.get_cat. rewrite Hi.
  unfold simulate.iadd, simulate.modify, simulate.gets.
  cbn [simulate.arrays simulate.house simulate.set_arrays fst snd].
  rewrite Nat.eqb_refl, Hout. reflexivity.
Qed.

(** X17.  When the first cat, moved by its velocity over one time step,
    is not inside the house, [step()] raises [ValueError]; its position
    array has already been updated in place, while the agents and the
    step counter are as before the call. *)
Theorem boundary_violation_aborts_step (MILLISECOND : R) (s : simulate.Simulator)
  (c : cat.Cat) (rest : list cat.Cat) :
  simulate.cats s = c :: rest ->
  world.House_inside (simulate.house s)
    (add (simulate.arrays s (cat.self_position c))
         (scale (simulate.timestep_duration MILLISECOND) (cat.self_velocity c)))
  = false ->
  fst (simulate.step MILLISECOND s) = Raise ValueError
  /\ simulate.arrays (snd (simulate.step MILLISECOND s)) (cat.self_position c)
     = add (simulate.arrays s (cat.self_position c))
           (scale (simulate.timestep_duration MILLISECOND) (cat.self_velocity c))
  /\ agents (snd (simulate.step MILLISECOND s)) = agents s
  /\ simulate.current_step (snd (simulate.step MILLISECOND s))
     = simulate.current_step s.
Proof.
  intros Hc Hout.
  assert (E : simulate.step MILLISECOND s
              = (Raise ValueError,
                 snd (simulate.iadd (cat.self_position c)
                        (scale (simulate.timestep_duration MILLISECOND)
                               (cat.self_velocity c)) s))).
  { rewrite step_phases, Hc. cbn [List.length seq simulate.for_each].
    unfold simulate.mbind at 1.
    rewrite (move_cat_outside MILLISECOND s 0 c);
      [reflexivity | rewrite Hc; reflexivity | exact Hout]. }
  rewrite E. unfold simulate.iadd, simulate.modify.
  cbn [fst snd simulate.arrays simulate.set_arrays].
  rewrite Nat.eqb_refl. repeat split.
Qed.

Lemma boundary_violation_aborts_step_witness :
  simulate.cats runaway_scenario = cat.Cat_init runaway_config :: []
  /\ world.House_inside (simulate.house runaway_scenario)
       (add (simulate.arrays runaway_scenario
               (cat.self_position (cat.Cat_init runaway_config)))
            (scale (simulate.timestep_duration (1 / 1000))
                   (cat.self_velocity (cat.Cat_init runaway_config))))
     = false
  /\ fst (simulate.step (1 / 1000) runaway_scenario) = Raise ValueError.
Proof.
  assert (Hc : simulate.cats runaway_scenario = cat.Cat_init runaway_config :: [])
    by reflexivity.
  assert (Hout : world.House_inside (simulate.house runaway_scenario)
                   (add (simulate.arrays runaway_scenario
                           (cat.self_position (cat.Cat_init runaway_config)))
                        (scale (simulate.timestep_duration (1 / 1000))
                               (cat.self_velocity (cat.Cat_init runaway_config))))
                 = false).
  { unfold runaway_scenario. evaluate. reflexivity. }
  split; [exact Hc |]. split; [exact Hout |].
  exact (proj1 (boundary_violation_aborts_step (1 / 1000) runaway_scenario
                  (cat.Cat_init runaway_config) [] Hc Hout)).
Defined.

(** ** Agents and their sensors *)

(** X18.  The constructor of [Laser] fails, with [AttributeError],
    exactly when the configuration brings a sensor of its own; a laser
    fresh from its constructor is left unchanged by [reset], and [reset]
    is idempotent: resetting twice is resetting once. *)
Theorem laser_reset_is_idempotent (config : laser.LaserConfig) :
  (laser.Laser_init config = Raise AttributeError <-> laser.sensor config <> None)
  /\ (forall l, laser.Laser_init config = Ok l -> laser.reset l = Ok l)
  /\ (forall l l', laser.reset l = Ok l' -> laser.reset l' = Ok l').
Proof.
  unfold laser.Laser_init, laser.reset, laser.reset_attributes.
  split; [| split].
  - destruct (laser.sensor config); simpl; split; congruence.
  - intros l. destruct (laser.sensor config) eqn:E; simpl; [discriminate |].
    intros H. injection H as <-. simpl. rewrite E. reflexivity.
  - intros l l'. destruct (laser.sensor (laser.config l)) eqn:E; simpl.
    + destruct (laser.self_sensor l); simpl; [| discriminate].
      intros H. injection H as <-. simpl. rewrite E. reflexivity.
    + intros H. injection H as <-. simpl. rewrite E. reflexivity.
Qed.

Lemma cat_targets_without_sensor (distances : list (list R))
  (s : simulate.Simulator) (c : cat.Cat) (rest : list cat.Cat) :
  simulate.cats s = c :: rest -> cat.self_sensor c = None ->
  exists e, fst (simulate.cat_targets distances 0 s) = Raise e.
Proof.
  intros Hc Hs.
  unfold simulate.cat_targets, simulate.mbind, simulate.get_cat, simulate.lift,
    simulate.get_laser.
  rewrite Hc. cbn [nth_error].
  destruct (simulate.argmin _); [| simpl; eauto].
  destruct (nth_error (simulate.lasers s) _); [| simpl; eauto].
  unfold cat.set_target. rewrite Hs. simpl. eauto.
Qed.

(** X19.  A cat built from a configuration that brings a sensor of its
    own has no [sensor] attribute, and a simulator whose first cat is such
    a cat never completes a step: every [step()] raises. *)
Theorem cat_with_own_sensor_cannot_step (MILLISECOND : R) (s : simulate.Simulator)
  (config : cat.CatConfig) (rest : list cat.Cat) :
  simulate.cats s = cat.Cat_init config :: rest ->
  cat.sensor config <> None ->
  cat.self_sensor (cat.Cat_init config) = None
  /\ exists e, fst (simulate.step MILLISECOND s) = Raise e.
Proof.
  intros Hc Hs.
  assert (Hn : cat.self_sensor (cat.Cat_init config) = None).
  { unfold cat.Cat_init; simpl. destruct (cat.sensor config); [reflexivity | contradiction]. }
  split; [exact Hn |].
  rewrite step_phases.
  destruct (move_cats_outcome MILLISECOND s) as [Ha _].
  destruct (simulate.for_each _ (simulate.move_cat MILLISECOND) s) as [[[] | e] s1];
    [| simpl; eauto].
  simpl in Ha. unfold agents in Ha. injection Ha as Hc1 Hl1.
  destruct (move_lasers_outcome MILLISECOND s1) as [Ha2 _].
  rewrite Hl1 in Ha2.
  destruct (simulate.for_each _ (simulate.move_laser MILLISECOND) s1) as [[[] | e] s2];
    [| simpl; eauto].
  simpl in Ha2. unfold agents in Ha2. injection Ha2 as Hc2 Hl2.
  rewrite Hc. cbn [List.length seq simulate.for_each].
  unfold simulate.mbind at 1.
  destruct (cat_targets_without_sensor (simulate.distance_matrix s2) s2
              (cat.Cat_init config) rest) as [e E];
    [congruence | exact Hn |].
  destruct (simulate.cat_targets (simulate.distance_matrix s2) 0 s2) as [[[] | e'] s3];
    simpl in E; [discriminate |].
  simpl. eauto.
Qed.

Lemma cat_with_own_sensor_cannot_step_witness :
  simulate.cats equipped_scenario = cat.Cat_init equipped_config :: []
  /\ cat.sensor equipped_config <> None
  /\ exists e, fst (simulate.step (1 / 1000) equipped_scenario) = Raise e.
Proof.
  assert (Hc : simulate.cats equipped_scenario = cat.Cat_init equipped_config :: [])
    by reflexivity.
  assert (Hs : cat.sensor equipped_config <> None) by discriminate.
  split; [exact Hc |]. split; [exact Hs |].
  exact (proj2 (cat_with_own_sensor_cannot_step (1 / 1000) equipped_scenario
                  equipped_config [] Hc Hs)).
Defined.

(** ** Resetting the lasers *)

Lemma set_nth_middle {A : Type} (done : list A) (x y : A) (todo : list A) :
  simulate.set_nth (List.length done) x (done ++ y :: todo) = done ++ x :: todo.
Proof.
  induction done as [| z done IH]; simpl; [reflexivity | rewrite IH; reflexivity].
Qed.

Lemma laser_reset_succeeds (l : laser.Laser) :
  laser.self_sensor l <> None ->
  exists l', laser.reset l = Ok l' /\ is_reset_of l l'.
Proof.
  intros Hs. unfold laser.reset, laser.reset_attributes.
  destruct (laser.self_sensor l) as [o |]; [| contradiction].
  destruct (laser.sensor (laser.config l)); simpl;
    eexists; (split; [reflexivity |]); unfold is_reset_of; simpl;
    repeat split; intros k ->; reflexivity.
Qed.

Lemma reset_laser_step (j : nat) (s : simulate.Simulator) (l l' : laser.Laser) :
  nth_error (simulate.lasers s) j = Some l -> laser.reset l = Ok l' ->
  simulate.reset_laser j s
  = (Ok tt, simulate.set_lasers (simulate.set_nth j l' (simulate.lasers s)) s).
Proof.
  intros Hj El.
  unfold simulate.reset_laser, simulate.mbind, simulate.get_laser, simulate.lift,
    simulate.put_laser, simulate.modify.
  rewrite Hj, El. reflexivity.
Qed.

Lemma reset_lasers_loop (todo : list laser.Laser) :
  forall (done : list laser.Laser) (s : simulate.Simulator),
    simulate.lasers s = done ++ todo ->
    (forall l, In l todo -> laser.self_sensor l <> None) ->
    exists todo',
      simulate.for_each (seq (List.length done) (List.length todo))
        simulate.reset_laser s
      = (Ok tt, simulate.set_lasers (done ++ todo') s)
      /\ Forall2 is_reset_of todo todo'.
Proof.
  induction todo as [| l todo IH]; intros done s Hl Hs.
  - exists []. split; [| constructor].
    simpl. unfold simulate.ret. f_equal.
    destruct s; simpl in *. subst. reflexivity.
  - destruct (laser_reset_succeeds l) as (l' & El & Hl'); [apply Hs; left; reflexivity |].
    destruct (IH (done ++ [l'])
                 (simulate.set_lasers (done ++ l' :: todo) s)) as (todo' & E & HF).
    { simpl. rewrite <- app_assoc. reflexivity. }
    { intros x Hx. apply Hs. right. exact Hx. }
    exists (l' :: todo'). split; [| constructor; assumption].
    cbn [List.length seq simulate.for_each]. unfold simulate.mbind at 1.
    rewrite (reset_laser_step (List.length done) s l l');
      [| rewrite Hl, nth_error_app2, Nat.sub_diag by lia; reflexivity | exact El].
    rewrite Hl, set_nth_middle.
    rewrite length_app in E. simpl in E.
    replace (List.length done + 1)%nat with (S (List.length done)) in E by lia.
    rewrite E. rewrite <- app_assoc. destruct s; reflexivity.
Qed.

(** X20.  On a simulator without cats, whose lasers hold a sensor (as
    every constructed laser does), [Simulator.reset()] returns, zeroes
    the step counter, writes no position array, and leaves each laser
    with the name, maximal speed, position array and velocity of its
    configuration, its controller object (history included) and its
    target being kept. *)
Theorem reset_restores_lasers (s : simulate.Simulator) :
  simulate.cats s = [] ->
  (forall l, In l (simulate.lasers s) -> laser.self_sensor l <> None) ->
  fst (simulate.reset s) = Ok tt
  /\ simulate.current_step (snd (simulate.reset s)) = 0%Z
  /\ simulate.arrays (snd (simulate.reset s)) = simulate.arrays s
  /\ Forall2 is_reset_of (simulate.lasers s) (simulate.lasers (snd (simulate.reset s))).
Proof.
  intros Hc Hs.
  destruct (reset_lasers_loop (simulate.lasers s) []
              (simulate.set_current_step 0 s) eq_refl Hs) as (todo' & E & HF).
  assert (Er : simulate.reset s
               = (Ok tt, simulate.set_lasers todo' (simulate.set_current_step 0 s))).
  { unfold simulate.reset, simulate.mbind at 1 2 3, simulate.modify, simulate.gets.
    cbn [fst snd simulate.cats simulate.lasers simulate.set_current_step].
    rewrite Hc. cbn [List.length seq simulate.for_each].
    unfold simulate.mbind, simulate.ret.
    simpl in E. rewrite E. reflexivity. }
  rewrite Er. simpl. repeat split. exact HF.
Qed.

Lemma reset_restores_lasers_witness :
  simulate.cats evader_alone = []
  /\ (forall l, In l (simulate.lasers evader_alone) -> laser.self_sensor l <> None)
  /\ fst (simulate.reset evader_alone) = Ok tt.
Proof.
  assert (Hc : simulate.cats evader_alone = []) by reflexivity.
  assert (Hs : forall l, In l (simulate.lasers evader_alone) ->
                         laser.self_sensor l <> None).
  { intros l [<- | []]. discriminate. }
  split; [exact Hc |]. split; [exact Hs |].
  exact (proj1 (reset_restores_lasers evader_alone Hc Hs)).
Defined.

(** ** One seeker against one evader *)

Section Duel.

Variables (c : cat.Cat) (l : laser.Laser).

Lemma duel_cat_targets (s : simulate.Simulator) (d : R) :
  simulate.cats s = [c] -> simulate.lasers s = [l] ->
  simulate.for_each (seq 0 1) (simulate.cat_targets [[d]]) s
  = match cat.set_target c (mobile.LaserRef 0) with
    | Ok c1 => (Ok tt, simulate.set_cats [c1] s)
    | Raise e => (Raise e, s)
    end.
Proof.
  intros Hc Hl. cbn [seq simulate.for_each].
  unfold simulate.mbind, simulate.cat_targets, simulate.mbind, simulate.get_cat,
    simulate.lift, simulate.get_laser, simulate.put_cat, simulate.modify, simulate.ret.
  rewrite Hc. simpl. rewrite Hl. simpl. rewrite Hc.
  destruct (cat.set_target c _); reflexivity.
Qed.

Lemma duel_laser_targets (s : simulate.Simulator) (d : R) (c1 : cat.Cat) :
  simulate.cats s = [c1] -> simulate.lasers s = [l] ->
  simulate.for_each (seq 0 1) (simulate.laser_targets [[d]]) s
  = match laser.set_target l (mobile.CatRef 0) with
    | Ok l1 => (Ok tt, simulate.set_lasers [l1] s)
    | Raise e => (Raise e, s)
    end.
Proof.
  intros Hc Hl. cbn [seq simulate.for_each].
  unfold simulate.mbind, simulate.laser_targets, simulate.mbind, simulate.get_cat,
    simulate.lift, simulate.get_laser, simulate.put_laser, simulate.modify, simulate.ret.
  rewrite Hl. simpl. rewrite Hc. simpl. rewrite Hl.
  destruct (laser.set_target l _); reflexivity.
Qed.

Lemma duel_cat_controls (s : simulate.Simulator) (c1 : cat.Cat) :
  simulate.cats s = [c1] ->
  match simulate.for_each (seq 0 1) simulate.cat_controls s with
  | (Ok _, s') =>
      simulate.lasers s' = simulate.lasers s
      /\ exists k v, simulate.cats s' = [cat.set_control c1 k v]
  | (Raise _, _) => True
  end.
Proof.
  intros Hc. cbn [seq simulate.for_each].
  unfold simulate.mbind at 1, simulate.cat_controls, simulate.mbind, simulate.get_cat,
    simulate.lift.
  rewrite Hc. cbn [nth_error].
  destruct (cat.self_sensor c1) as [oracle |]; [| exact I].
  destruct (sensors.RangingOracle_read _ _ _) as [observation |]; [| exact I].
  pose proof (call_controller_effect (cat.self_controller c1)
                (control.Single observation) s) as He.
  destruct (simulate.call_controller _ _ s) as [[r | e] s'']; simpl in He; [| exact I].
  unfold simulate.put_cat, simulate.modify, simulate.ret.
  destruct He as [-> | ->]; simpl; rewrite Hc; simpl; eauto.
Qed.

Lemma duel_laser_controls (s : simulate.Simulator) (l1 : laser.Laser) :
  simulate.lasers s = [l1] ->
  match simulate.for_each (seq 0 1) simulate.laser_controls s with
  | (Ok _, s') =>
      simulate.cats s' = simulate.cats s
      /\ exists k v, simulate.lasers s' = [laser.set_control l1 k v]
  | (Raise _, _) => True
  end.
Proof.
  intros Hl. cbn [seq simulate.for_each].
  unfold simulate.mbind at 1, simulate.laser_controls, simulate.mbind,
    simulate.get_laser, simulate.lift.
  rewrite Hl. cbn [nth_error].
  destruct (laser.self_sensor l1) as [oracle |]; [| exact I].
  destruct (sensors.RangingOracle_read _ _ _) as [observation |]; [| exact I].
  destruct (laser.self_controller l1) as [k |]; [| exact I].
  pose proof (call_controller_effect k (control.Single observation) s) as He.
  destruct (simulate.call_controller _ _ s) as [[r | e] s'']; simpl in He; [| exact I].
  unfold simulate.put_laser, simulate.modify, simulate.ret.
  destruct He as [-> | ->]; simpl; rewrite Hl; simpl; eauto.
Qed.

End Duel.

(** X21.  With exactly one cat and one laser, a [step()] that returns
    leaves each agent targeting the other, the target of its sensor
    included: the cat targets the laser of index 0 and the laser the cat
    of index 0. *)
Theorem duel_targets_are_mutual (MILLISECOND : R) (s : simulate.Simulator)
  (c : cat.Cat) (l : laser.Laser) :
  simulate.cats s = [c] -> simulate.lasers s = [l] ->
  fst (simulate.step MILLISECOND s) = Ok tt ->
  exists c' l',
    simulate.cats (snd (simulate.step MILLISECOND s)) = [c']
    /\ simulate.lasers (snd (simulate.step MILLISECOND s)) = [l']
    /\ cat.self_target c' = Some (mobile.LaserRef 0)
    /\ cat.self_sensor c' = Some (sensors.mkRangingOracle (Some (mobile.LaserRef 0)))
    /\ laser.self_target l' = Some (mobile.CatRef 0)
    /\ laser.self_sensor l' = Some (sensors.mkRangingOracle (Some (mobile.CatRef 0))).
Proof.
  intros Hc Hl. rewrite step_phases, Hc, Hl. cbn [List.length].
  destruct (move_cats_outcome MILLISECOND s) as [Ha _]. rewrite Hc in Ha.
  cbn [List.length] in Ha.
  destruct (simulate.for_each _ (simulate.move_cat MILLISECOND) s) as [[[] | e] s1];
    [| discriminate].
  simpl in Ha. unfold agents in Ha. injection Ha as Hc1 Hl1.
  destruct (move_lasers_outcome MILLISECOND s1) as [Ha2 _].
  rewrite Hl1, Hl in Ha2. cbn [List.length] in Ha2.
  destruct (simulate.for_each _ (simulate.move_laser MILLISECOND) s1) as [[[] | e] s2];
    [| discriminate].
  simpl in Ha2. unfold agents in Ha2. injection Ha2 as Hc2 Hl2.
  rewrite Hc1, Hc in Hc2. rewrite Hl1, Hl in Hl2.
  assert (ED : exists d, simulate.distance_matrix s2 = [[d]]).
  { unfold simulate.distance_matrix. rewrite Hc2, Hl2. simpl. eauto. }
  destruct ED as [d ED]. rewrite ED.
  rewrite (duel_cat_targets c l s2 d Hc2 Hl2).
  destruct (cat.set_target c (mobile.LaserRef 0)) as [c1 |] eqn:Ec; [| discriminate].
  rewrite (duel_laser_targets l (simulate.set_cats [c1] s2) d c1 eq_refl Hl2).
  destruct (laser.set_target l (mobile.CatRef 0)) as [l1 |] eqn:El; [| discriminate].
  pose proof (duel_cat_controls
                (simulate.set_lasers [l1] (simulate.set_cats [c1] s2)) c1 eq_refl) as H5.
  destruct (simulate.for_each (seq 0 1) simulate.cat_controls _) as [[[] | e] s5];
    [| discriminate].
  destruct H5 as (Hl5 & k & v & Hc5). simpl in Hl5.
  pose proof (duel_laser_controls s5 l1 Hl5) as H6.
  destruct (simulate.for_each (seq 0 1) simulate.laser_controls s5) as [[[] | e] s6];
    [| discriminate].
  destruct H6 as (Hc6 & k' & v' & Hl6).
  intros _. simpl. rewrite Hc6, Hc5, Hl6.
  exists (cat.set_control c1 k v), (laser.set_control l1 k' v').
  unfold cat.set_target in Ec. destruct (cat.self_sensor c); [| discriminate].
  injection Ec as <-.
  unfold laser.set_target in El. destruct (laser.self_sensor l); [| discriminate].
  injection El as <-.
  repeat split.
Qed.

Lemma duel_targets_are_mutual_witness :
  simulate.cats scenario = [cat.Cat_init seeker_config]
  /\ simulate.lasers scenario = [evader]
  /\ fst (simulate.step (1 / 1000) scenario) = Ok tt
  /\ exists c' l',
       simulate.cats (snd (simulate.step (1 / 1000) scenario)) = [c']
       /\ simulate.lasers (snd (simulate.step (1 / 1000) scenario)) = [l']
       /\ cat.self_target c' = Some (mobile.LaserRef 0)
       /\ cat.self_sensor c' = Some (sensors.mkRangingOracle (Some (mobile.LaserRef 0)))
       /\ laser.self_target l' = Some (mobile.CatRef 0)
       /\ laser.self_sensor l' = Some (sensors.mkRangingOracle (Some (mobile.CatRef 0))).
Proof.
  assert (Hc : simulate.cats scenario = [cat.Cat_init seeker_config]) by reflexivity.
  assert (Hl : simulate.lasers scenario = [evader]) by reflexivity.
  assert (Hs : fst (simulate.step (1 / 1000) scenario) = Ok tt)
    by exact (proj1 (scenario_step (1 / 1000))).
  split; [exact Hc |]. split; [exact Hl |]. split; [exact Hs |].
  exact (duel_targets_are_mutual (1 / 1000) scenario (cat.Cat_init seeker_config)
           evader Hc Hl Hs).
Defined.

(** ** The velocities of a duel *)

Lemma ranging_call_single (k : control.RangingOracleController)
  (o : sensors.SensorState) :
  control.mode k = "target"%string \/ control.mode k = "avoid"%string ->
  control.RangingOracleController_call k (control.Single o)
  = h <- control.record (control.buffer_size k) (control.history k)
           (adjusted (control.mode k) (sensors.payload o)) ;;
    Ok (control.mkControlSignal (adjusted (control.mode k) (sensors.payload o))
          (Some [("name", "RangingOracleController"); ("mode", control.mode k)]%string),
        control.mkRangingOracleController (control.mode k) (control.buffer_size k) h).
Proof.
  intros Hm. unfold control.RangingOracleController_call.
  cbn [control.as_collection].
  rewrite (select_cons_valid _ _ _ _ Hm). cbn [control.select].
  unfold Rgtb. rewrite norm_zeros.
  destruct (Rlt_dec 0 (norm (sensors.payload o))) as [Hpos | Hz].
  - rewrite (Rltb_true _ _ Hpos). reflexivity.
  - rewrite Rltb_false by lra.
    assert (E : sensors.payload o = zeros) by (apply norm_zero_inv; lra).
    rewrite E, adjusted_zeros. reflexivity.
Qed.

Section DuelVelocities.

Lemma arrays_call_controller (k : Controller) (state : control.observations)
  (s : simulate.Simulator) :
  simulate.arrays (snd (simulate.call_controller k state s)) = simulate.arrays s
  /\ agents (snd (simulate.call_controller k state s)) = agents s.
Proof.
  destruct (call_controller_effect k state s) as [-> | ->]; split; reflexivity.
Qed.

Lemma duel_cat_velocity (s : simulate.Simulator) (c1 : cat.Cat) (l1 : laser.Laser)
  (k : control.RangingOracleController) :
  simulate.cats s = [c1] -> simulate.lasers s = [l1] ->
  cat.self_sensor c1 = Some (sensors.mkRangingOracle (Some (mobile.LaserRef 0))) ->
  cat.self_controller c1 = Ranging k ->
  control.mode k = "target"%string \/ control.mode k = "avoid"%string ->
  match simulate.for_each (seq 0 1) simulate.cat_controls s with
  | (Ok _, s') =>
      simulate.arrays s' = simulate.arrays s
      /\ simulate.lasers s' = simulate.lasers s
      /\ exists c', simulate.cats s' = [c']
           /\ cat.self_position c' = cat.self_position c1
           /\ cat.self_velocity c'
              = adjusted (control.mode k)
                  (sub (simulate.arrays s (laser.self_position l1))
                       (simulate.arrays s (cat.self_position c1)))
  | (Raise _, _) => True
  end.
Proof.
  intros Hc Hl Hs Hk Hm. cbn [seq simulate.for_each].
  unfold simulate.mbind at 1, simulate.cat_controls, simulate.mbind at 1,
    simulate.get_cat.
  rewrite Hc. cbn [nth_error].
  unfold simulate.mbind at 1, simulate.lift. rewrite Hs.
  unfold simulate.mbind at 1, sensors.RangingOracle_read.
  cbn [sensors.target]. unfold simulate.position. rewrite Hl, Hc.
  cbn [nth_error bind].
  unfold simulate.mbind at 1. rewrite Hk.
  unfold simulate.call_controller, simulate.mbind at 1, simulate.lift.
  rewrite (ranging_call_single _ _ Hm). cbn [sensors.payload].
  destruct (control.record _ _ _) as [h |]; cbn [bind]; [| exact I].
  unfold simulate.ret, simulate.put_cat, simulate.modify. cbn [fst snd].
  rewrite Hc. cbn. rewrite ?Hl, ?Hc.
  repeat split. eexists. repeat split.
Qed.

Lemma duel_laser_velocity (s : simulate.Simulator) (c1 : cat.Cat) (l1 : laser.Laser)
  (k : control.RangingOracleController) :
  simulate.cats s = [c1] -> simulate.lasers s = [l1] ->
  laser.self_sensor l1 = Some (sensors.mkRangingOracle (Some (mobile.CatRef 0))) ->
  laser.self_controller l1 = Some (Ranging k) ->
  control.mode k = "target"%string \/ control.mode k = "avoid"%string ->
  match simulate.for_each (seq 0 1) simulate.laser_controls s with
  | (Ok _, s') =>
      simulate.arrays s' = simulate.arrays s
      /\ simulate.cats s' = simulate.cats s
      /\ exists l', simulate.lasers s' = [l']
           /\ laser.self_position l' = laser.self_position l1
           /\ laser.self_velocity l'
              = adjusted (control.mode k)
                  (sub (simulate.arrays s (cat.self_position c1))
                       (simulate.arrays s (laser.self_position l1)))
  | (Raise _, _) => True
  end.
Proof.
  intros Hc Hl Hs Hk Hm. cbn [seq simulate.for_each].
  unfold simulate.mbind at 1, simulate.laser_controls, simulate.mbind at 1,
    simulate.get_laser.
  rewrite Hl. cbn [nth_error].
  unfold simulate.mbind at 1, simulate.lift. rewrite Hs.
  unfold simulate.mbind at 1, sensors.RangingOracle_read.
  cbn [sensors.target]. unfold simulate.position. rewrite Hl, Hc.
  cbn [nth_error bind].
  unfold simulate.mbind at 1. rewrite Hk.
  unfold simulate.mbind at 1.
  unfold simulate.call_controller, simulate.mbind at 1, simulate.lift.
  rewrite (ranging_call_single _ _ Hm). cbn [sensors.payload].
  destruct (control.record _ _ _) as [h |]; cbn [bind]; [| exact I].
  unfold simulate.ret, simulate.put_laser, simulate.modify. cbn [fst snd].
  rewrite Hl. cbn. rewrite ?Hl, ?Hc.
  repeat split. eexists. repeat split.
Qed.

End DuelVelocities.

(** X22.  With exactly one cat, whose ranging-oracle controller is in
    "target" mode, and one laser, whose controller is in "avoid" mode, a
    [step()] that returns leaves the cat with the velocity "laser position
    minus cat position" (positions as moved by the step) and the laser
    with the negated "cat position minus laser position": both agents
    get the same velocity vector. *)
Theorem duel_velocities (MILLISECOND : R) (s : simulate.Simulator)
  (c : cat.Cat) (l : laser.Laser) (kc kl : control.RangingOracleController) :
  simulate.cats s = [c] -> simulate.lasers s = [l] ->
  cat.self_controller c = Ranging kc -> control.mode kc = "target"%string ->
  laser.self_controller l = Some (Ranging kl) -> control.mode kl = "avoid"%string ->
  fst (simulate.step MILLISECOND s) = Ok tt ->
  exists c' l',
    simulate.cats (snd (simulate.step MILLISECOND s)) = [c']
    /\ simulate.lasers (snd (simulate.step MILLISECOND s)) = [l']
    /\ cat.self_velocity c'
       = sub (simulate.arrays (snd (simulate.step MILLISECOND s)) (laser.self_position l))
             (simulate.arrays (snd (simulate.step MILLISECOND s)) (cat.self_position c))
    /\ laser.self_velocity l'
       = neg (sub (simulate.arrays (snd (simulate.step MILLISECOND s))
                     (cat.self_position c))
                  (simulate.arrays (snd (simulate.step MILLISECOND s))
                     (laser.self_position l)))
    /\ laser.self_velocity l' = cat.self_velocity c'.
Proof.
  intros Hc Hl Hkc Hmc Hkl Hml. rewrite step_phases, Hc, Hl. cbn [List.length].
  destruct (move_cats_outcome MILLISECOND s) as [Ha _]. rewrite Hc in Ha.
  cbn [List.length] in Ha.
  destruct (simulate.for_each _ (simulate.move_cat MILLISECOND) s) as [[[] | e] s1];
    [| discriminate].
  simpl in Ha. unfold agents in Ha. injection Ha as Hc1 Hl1.
  destruct (move_lasers_outcome MILLISECOND s1) as [Ha2 _].
  rewrite Hl1, Hl in Ha2. cbn [List.length] in Ha2.
  destruct (simulate.for_each _ (simulate.move_laser MILLISECOND) s1) as [[[] | e] s2];
    [| discriminate].
  simpl in Ha2. unfold agents in Ha2. injection Ha2 as Hc2 Hl2.
  rewrite Hc1, Hc in Hc2. rewrite Hl1, Hl in Hl2.
  assert (ED : exists d, simulate.distance_matrix s2 = [[d]]).
  { unfold simulate.distance_matrix. rewrite Hc2, Hl2. simpl. eauto. }
  destruct ED as [d ED]. rewrite ED.
  rewrite (duel_cat_targets c l s2 d Hc2 Hl2).
  destruct (cat.set_target c (mobile.LaserRef 0)) as [c1 |] eqn:Ec; [| discriminate].
  rewrite (duel_laser_targets l (simulate.set_cats [c1] s2) d c1 eq_refl Hl2).
  destruct (laser.set_target l (mobile.CatRef 0)) as [l1 |] eqn:El; [| discriminate].
  unfold cat.set_target in Ec. destruct (cat.self_sensor c); [| discriminate].
  injection Ec as <-.
  unfold laser.set_target in El. destruct (laser.self_sensor l); [| discriminate].
  injection El as <-.
  match goal with
  | |- context [simulate.for_each (seq 0 1) simulate.cat_controls ?s4] =>
      pose proof (duel_cat_velocity s4 _ _ kc eq_refl eq_refl eq_refl Hkc
                    (or_introl Hmc)) as H5;
      destruct (simulate.for_each (seq 0 1) simulate.cat_controls s4)
        as [[[] | e] s5]; [| discriminate]
  end.
  destruct H5 as (Ha5 & Hl5 & c' & Hc5 & Hp5 & Hv5).
  cbn [simulate.arrays simulate.lasers simulate.set_lasers simulate.set_cats
       cat.self_position laser.self_position] in Ha5, Hl5, Hp5, Hv5.
  pose proof (duel_laser_velocity s5 c' _ kl Hc5 Hl5 eq_refl Hkl (or_intror Hml)) as H6.
  destruct (simulate.for_each (seq 0 1) simulate.laser_controls s5) as [[[] | e] s6];
    [| discriminate].
  destruct H6 as (Ha6 & Hc6 & l' & Hl6 & Hp6 & Hv6).
  cbn [laser.self_position] in Hp6, Hv6.
  intros _. cbn [fst snd simulate.cats simulate.lasers simulate.arrays
                 simulate.set_current_step].
  exists c', l'. rewrite Hc6, Hc5, Hl6, Ha6, Ha5.
  rewrite Hmc in Hv5. rewrite Hml, Hp5, Ha5 in Hv6.
  unfold adjusted in Hv5, Hv6. simpl in Hv5, Hv6.
  repeat split; try assumption.
  rewrite Hv5, Hv6. unfold neg, sub; simpl. f_equal; ring.
Qed.

Lemma duel_velocities_witness :
  simulate.cats scenario = [cat.Cat_init seeker_config]
  /\ simulate.lasers scenario = [evader]
  /\ cat.self_controller (cat.Cat_init seeker_config)
     = Ranging (control.RangingOracleController_init "target" 1000)
  /\ control.mode (control.RangingOracleController_init "target" 1000) = "target"%string
  /\ laser.self_controller evader
     = Some (Ranging (control.RangingOracleController_init "avoid" 1000))
  /\ control.mode (control.RangingOracleController_init "avoid" 1000) = "avoid"%string
  /\ fst (simulate.step (1 / 1000) scenario) = Ok tt
  /\ exists c' l',
       simulate.cats (snd (simulate.step (1 / 1000) scenario)) = [c']
       /\ simulate.lasers (snd (simulate.step (1 / 1000) scenario)) = [l']
       /\ cat.self_velocity c'
          = sub (simulate.arrays (snd (simulate.step (1 / 1000) scenario))
                   (laser.self_position evader))
                (simulate.arrays (snd (simulate.step (1 / 1000) scenario))
                   (cat.self_position (cat.Cat_init seeker_config)))
       /\ laser.self_velocity l'
          = neg (sub (simulate.arrays (snd (simulate.step (1 / 1000) scenario))
                        (cat.self_position (cat.Cat_init seeker_config)))
                     (simulate.arrays (snd (simulate.step (1 / 1000) scenario))
                        (laser.self_position evader)))
       /\ laser.self_velocity l' = cat.self_velocity c'.
Proof.
  assert (Hs : fst (simulate.step (1 / 1000) scenario) = Ok tt)
    by exact (proj1 (scenario_step (1 / 1000))).
  repeat (split; [reflexivity |]). split; [exact Hs |].
  exact (duel_velocities (1 / 1000) scenario (cat.Cat_init seeker_config) evader
           (control.RangingOracleController_init "target" 1000)
           (control.RangingOracleController_init "avoid" 1000)
           eq_refl eq_refl eq_refl eq_refl eq_refl eq_refl Hs).
Defined.

(** ** The movement of a duel *)

Lemma arrays_put_cat (i : nat) (c : cat.Cat) : preserves simulate.arrays (simulate.put_cat i c).
Proof. apply preserves_modify. reflexivity. Qed.

Lemma arrays_put_laser (j : nat) (l : laser.Laser) :
  preserves simulate.arrays (simulate.put_laser j l).
Proof. apply preserves_modify. reflexivity. Qed.

Lemma arrays_controller (k : Controller) (state : control.observations) :
  preserves simulate.arrays (simulate.call_controller k state).
Proof. intros s. apply arrays_call_controller. Qed.

Lemma arrays_cat_targets (distances : list (list R)) (i : nat) :
  preserves simulate.arrays (simulate.cat_targets distances i).
Proof.
  unfold simulate.cat_targets.
  apply preserves_bind; [apply preserves_get_cat | intros c].
  apply preserves_bind; [apply preserves_lift | intros nearest].
  apply preserves_bind; [apply preserves_get_laser | intros _].
  apply preserves_bind; [apply preserves_lift | intros c'].
  apply arrays_put_cat.
Qed.

Lemma arrays_laser_targets (distances : list (list R)) (j : nat) :
  preserves simulate.arrays (simulate.laser_targets distances j).
Proof.
  unfold simulate.laser_targets.
  apply preserves_bind; [apply preserves_get_laser | intros l].
  apply preserves_bind; [apply preserves_lift | intros nearest].
  apply preserves_bind; [apply preserves_get_cat | intros _].
  apply preserves_bind; [apply preserves_lift | intros l'].
  apply arrays_put_laser.
Qed.

Lemma arrays_cat_controls (i : nat) : preserves simulate.arrays (simulate.cat_controls i).
Proof.
  unfold simulate.cat_controls.
  apply preserves_bind; [apply preserves_get_cat | intros c].
  apply preserves_bind; [apply preserves_lift | intros oracle].
  apply preserves_bind; [apply preserves_read | intros observation].
  apply preserves_bind; [apply arrays_controller | intros r].
  apply arrays_put_cat.
Qed.

Lemma arrays_laser_controls (j : nat) :
  preserves simulate.arrays (simulate.laser_controls j).
Proof.
  unfold simulate.laser_controls.
  apply preserves_bind; [apply preserves_get_laser | intros l].
  apply preserves_bind; [apply preserves_lift | intros oracle].
  apply preserves_bind; [apply preserves_read | intros observation].
  apply preserves_bind; [apply preserves_lift | intros k].
  apply preserves_bind; [apply arrays_controller | intros r].
  apply arrays_put_laser.
Qed.

Lemma move_cat_step (MILLISECOND : R) (s : simulate.Simulator) (i : nat) (c : cat.Cat) :
  nth_error (simulate.cats s) i = Some c ->
  simulate.move_cat MILLISECOND i s
  = (if world.House_inside (simulate.house s)
          (add (simulate.arrays s (cat.self_position c))
               (scale (simulate.timestep_duration MILLISECOND) (cat.self_velocity c)))
     then Ok tt else Raise ValueError,
     snd (simulate.iadd (cat.self_position c)
            (scale (simulate.timestep_duration MILLISECOND) (cat.self_velocity c)) s)).
Proof.
  intros Hi.
  unfold simulate.move_cat, simulate.mbind, simulate.get_cat. rewrite Hi.
  unfold simulate.iadd, simulate.modify, simulate.gets.
  cbn [simulate.arrays simulate.house simulate.set_arrays fst snd].
  rewrite Nat.eqb_refl. destruct (world.House_inside _ _); reflexivity.
Qed.

Lemma move_laser_step (MILLISECOND : R) (s : simulate.Simulator) (j : nat)
  (l : laser.Laser) :
  nth_error (simulate.lasers s) j = Some l ->
  simulate.move_laser MILLISECOND j s
  = (if world.House_inside (simulate.house s)
          (add (simulate.arrays s (laser.self_position l))
               (scale (simulate.timestep_duration MILLISECOND) (laser.self_velocity l)))
     then Ok tt else Raise ValueError,
     snd (simulate.iadd (laser.self_position l)
            (scale (simulate.timestep_duration MILLISECOND) (laser.self_velocity l)) s)).
Proof.
  intros Hj.
  unfold simulate.move_laser, simulate.mbind, simulate.get_laser. rewrite Hj.
  unfold simulate.iadd, simulate.modify, simulate.gets.
  cbn [simulate.arrays simulate.house simulate.set_arrays fst snd].
  rewrite Nat.eqb_refl. destruct (world.House_inside _ _); reflexivity.
Qed.

(** The position arrays after a returned step of a duel: the cat's array
    is advanced first, then the laser's, and both agents are then inside
    the house. *)
Lemma duel_movement_outcome (MILLISECOND : R) (s : simulate.Simulator)
  (c : cat.Cat) (l : laser.Laser) :
  simulate.cats s = [c] -> simulate.lasers s = [l] ->
  match simulate.step MILLISECOND s with
  | (Ok _, s') =>
      simulate.arrays s'
      = simulate.arrays
          (snd (simulate.iadd (laser.self_position l)
                  (scale (simulate.timestep_duration MILLISECOND)
                         (laser.self_velocity l))
                  (snd (simulate.iadd (cat.self_position c)
                          (scale (simulate.timestep_duration MILLISECOND)
                                 (cat.self_velocity c)) s))))
  | (Raise _, _) => True
  end.
Proof.
  intros Hc Hl. rewrite step_phases, Hc, Hl. cbn [List.length seq simulate.for_each].
  unfold simulate.mbind at 1.
  rewrite (move_cat_step MILLISECOND s 0 c) by (rewrite Hc; reflexivity).
  destruct (world.House_inside _ _); [| exact I].
  cbn [simulate.ret].
  set (s1 := snd (simulate.iadd (cat.self_position c) _ s)).
  unfold simulate.mbind at 1.
  rewrite (move_laser_step MILLISECOND s1 0 l) by (unfold s1; simpl; rewrite Hl; reflexivity).
  destruct (world.House_inside _ _); [| exact I].
  cbn [simulate.ret].
  set (s2 := snd (simulate.iadd (laser.self_position l) _ s1)).
  change (0 :: nil)%list with (seq 0 1).
  pose proof (preserves_for_each simulate.arrays
                (simulate.cat_targets (simulate.distance_matrix s2)) (seq 0 1)
                (arrays_cat_targets _) s2) as H3.
  change (simulate.mbind (simulate.cat_targets (simulate.distance_matrix s2) 0)
            (fun _ => simulate.ret tt))
    with (simulate.for_each (seq 0 1)
            (simulate.cat_targets (simulate.distance_matrix s2))).
  destruct (simulate.for_each (seq 0 1) (simulate.cat_targets _) s2) as [[[] | e] s3];
    [| exact I].
  pose proof (preserves_for_each simulate.arrays
                (simulate.laser_targets (simulate.distance_matrix s2)) (seq 0 1)
                (arrays_laser_targets _) s3) as H4.
  change (simulate.mbind (simulate.laser_targets (simulate.distance_matrix s2) 0)
            (fun _ => simulate.ret tt))
    with (simulate.for_each (seq 0 1)
            (simulate.laser_targets (simulate.distance_matrix s2))).
  destruct (simulate.for_each (seq 0 1) (simulate.laser_targets _) s3) as [[[] | e] s4];
    [| exact I].
  pose proof (preserves_for_each simulate.arrays simulate.cat_controls (seq 0 1)
                arrays_cat_controls s4) as H5.
  change (simulate.mbind (simulate.cat_controls 0) (fun _ => simulate.ret tt))
    with (simulate.for_each (seq 0 1) simulate.cat_controls).
  destruct (simulate.for_each (seq 0 1) simulate.cat_controls s4) as [[[] | e] s5];
    [| exact I].
  pose proof (preserves_for_each simulate.arrays simulate.laser_controls (seq 0 1)
                arrays_laser_controls s5) as H6.
  change (simulate.mbind (simulate.laser_controls 0) (fun _ => simulate.ret tt))
    with (simulate.for_each (seq 0 1) simulate.laser_controls).
  destruct (simulate.for_each (seq 0 1) simulate.laser_controls s5) as [[[] | e] s6];
    [| exact I].
  simpl in *. congruence.
Qed.

Lemma duel_arrays (MILLISECOND : R) (s : simulate.Simulator)
  (c : cat.Cat) (l : laser.Laser) :
  simulate.cats s = [c] -> simulate.lasers s = [l] ->
  fst (simulate.step MILLISECOND s) = Ok tt ->
  forall b,
    simulate.arrays (snd (simulate.step MILLISECOND s)) b
    = simulate.arrays
        (snd (simulate.iadd (laser.self_position l)
                (scale (simulate.timestep_duration MILLISECOND) (laser.self_velocity l))
                (snd (simulate.iadd (cat.self_position c)
                        (scale (simulate.timestep_duration MILLISECOND)
                               (cat.self_velocity c)) s)))) b.
Proof.
  intros Hc Hl Hok b.
  pose proof (duel_movement_outcome MILLISECOND s c l Hc Hl) as H.
  destruct (simulate.step MILLISECOND s) as [[[] | e] s']; [| discriminate].
  simpl. rewrite H. reflexivity.
Qed.

(** X23.  A returned step of a duel integrates the motion in place: when
    the two agents hold distinct position arrays, each array is advanced
    by the agent's velocity times the time step; when they hold the same
    array, that array is advanced by both velocities; no other array is
    written. *)
Theorem duel_step_integrates (MILLISECOND : R) (s : simulate.Simulator)
  (c : cat.Cat) (l : laser.Laser) :
  simulate.cats s = [c] -> simulate.lasers s = [l] ->
  fst (simulate.step MILLISECOND s) = Ok tt ->
  (cat.self_position c <> laser.self_position l ->
   simulate.arrays (snd (simulate.step MILLISECOND s)) (cat.self_position c)
   = add (simulate.arrays s (cat.self_position c))
         (scale (simulate.timestep_duration MILLISECOND) (cat.self_velocity c))
   /\ simulate.arrays (snd (simulate.step MILLISECOND s)) (laser.self_position l)
      = add (simulate.arrays s (laser.self_position l))
            (scale (simulate.timestep_duration MILLISECOND) (laser.self_velocity l)))
  /\ (cat.self_position c = laser.self_position l ->
      simulate.arrays (snd (simulate.step MILLISECOND s)) (cat.self_position c)
      = add (add (simulate.arrays s (cat.self_position c))
                 (scale (simulate.timestep_duration MILLISECOND) (cat.self_velocity c)))
            (scale (simulate.timestep_duration MILLISECOND) (laser.self_velocity l)))
  /\ (forall b, b <> cat.self_position c -> b <> laser.self_position l ->
                simulate.arrays (snd (simulate.step MILLISECOND s)) b
                = simulate.arrays s b).
Proof.
  intros Hc Hl Hok.
  pose proof (duel_arrays MILLISECOND s c l Hc Hl Hok) as H.
  unfold simulate.iadd, simulate.modify in H.
  cbn [fst snd simulate.arrays simulate.set_arrays] in H.
  split; [| split].
  - intros Hd. rewrite !H, !Nat.eqb_refl.
    rewrite (proj2 (Nat.eqb_neq _ _) Hd).
    assert (Hd' : laser.self_position l <> cat.self_position c) by congruence.
    rewrite (proj2 (Nat.eqb_neq _ _) Hd'). split; reflexivity.
  - intros He. rewrite H, <- He, !Nat.eqb_refl. reflexivity.
  - intros b Hbc Hbl. rewrite H.
    rewrite (proj2 (Nat.eqb_neq _ _) Hbc), (proj2 (Nat.eqb_neq _ _) Hbl). reflexivity.
Qed.

Lemma duel_step_integrates_witness :
  simulate.cats scenario = [cat.Cat_init seeker_config]
  /\ simulate.lasers scenario = [evader]
  /\ fst (simulate.step (1 / 1000) scenario) = Ok tt
  /\ forall b, b <> cat.self_position (cat.Cat_init seeker_config) ->
               b <> laser.self_position evader ->
               simulate.arrays (snd (simulate.step (1 / 1000) scenario)) b
               = simulate.arrays scenario b.
Proof.
  assert (Hs : fst (simulate.step (1 / 1000) scenario) = Ok tt)
    by exact (proj1 (scenario_step (1 / 1000))).
  repeat (split; [reflexivity |]). split; [exact Hs |].
  exact (proj2 (proj2 (duel_step_integrates (1 / 1000) scenario
                         (cat.Cat_init seeker_config) evader eq_refl eq_refl Hs))).
Defined.

(** ** The walls of a room *)

(** X25.  The four walls of a room form a closed loop, each wall ending
    where the next one starts and the last one where the first starts;
    this holds for the room as built and after any sequence of
    translations. *)
Theorem walls_form_a_loop (w h : R) (ts : list vec) :
  exists a b c d,
    map world.endpoints
        (world.walls (fold_left world.ClosedRoom_translate ts (world.ClosedRoom_init w h)))
    = [(a, b); (b, c); (c, d); (d, a)].
Proof.
  rewrite walls_after_translations. simpl.
  rewrite !endpoints_after_translations. simpl.
  do 4 eexists. reflexivity.
Qed.
